(** * saba-isucon: feed assembly, upload transform and image cache of app.go

    A shallow embedding of the core of [app.go] (the photo board of the
    private-isu benchmark, Go implementation):

    - [makePosts]: the batched hydration of post rows,
    - [resizeImage] and the upload handler [postIndex],
    - the in-memory image cache ([addToCache], [getFromCache],
      [clearImageCache]) and the image handler [getImage].

    Conventions.  Go's [int] and [int64] are [Z]; the only arithmetic that can
    leave the 64-bit range is the size accounting of the cache, and there the
    wrap-around is written out ([wrap64]).  A [time.Time] is a [Z] (a clock
    reading); [time.Now()] is an argument [now] of the operation that reads
    the clock.  [[]byte] is [list byte].  A Go map is a [gmap]; the order in
    which [range] visits a map is not specified by Go, so the scan of the
    cache takes the visiting order as a parameter [rangeOrder].  The
    relational store behind [db] is a record of three tables and each SQL
    statement of the source is a function over it, with the meaning the
    statement has in SQL; the store always answers, so the only errors of
    a query are the ones the code itself can raise: those of [sqlx.In] on
    the text and the arguments, and those on the rows ([Scan] of a NULL, no
    row for [Get]).  The rows of a query without [ORDER BY]
    come in an order [rowOrder] that is a parameter as well. *)

From Stdlib Require Import ZArith Strings.Ascii Strings.Byte.
From stdpp Require Import gmap strings list fin_maps sorting pretty.

Local Open Scope string_scope.
Local Open Scope Z_scope.

(** ** Outcomes *)

(** [(T, error)] results of the Go code. *)
Inductive Result (A : Type) : Type :=
| Ok (a : A)
| Err (msg : string).
Arguments Ok {A} a.
Arguments Err {A} msg.

(** Outcome of a loop run with a bound on the number of iterations: it
    returns, it panics (nil dereference), or the bound was too small. *)
Inductive Run (A : Type) : Type :=
| Ret (a : A)
| Panic
| OutOfFuel.
Arguments Ret {A} a.
Arguments Panic {A}.
Arguments OutOfFuel {A}.

(** Two's complement wrap-around of [int64] arithmetic. *)
Definition wrap64 (z : Z) : Z := (z + 2 ^ 63) mod 2 ^ 64 - 2 ^ 63.

(** [int64(len(b))] *)
Definition len64 (b : list byte) : Z := Z.of_nat (length b).

(** ** The image cache *)

Module Cache.

(** [type cacheEntry struct { data []byte; lastUse time.Time }] *)
Record cacheEntry : Type := mkEntry {
  entry_data : list byte;
  lastUse : Z
}.

(** The global [imageCache] (its lock is not modelled: every operation below
    is one critical section, run to completion). *)
Record ImageCache : Type := mkCache {
  data : gmap string cacheEntry;
  maxSize : Z;
  curSize : Z
}.

(** The initial value of [imageCache]: an empty map and a budget of 100MB. *)
Definition imageCache0 : ImageCache :=
  {| data := ∅; maxSize := 100 * 1024 * 1024; curSize := 0 |}.

(** The zero [time.Time] of [var oldestTime time.Time]. *)
Definition zeroTime : Z := 0.

(** One visit of [for k, v := range imageCache.data] in [addToCache]:
    [if oldestKey == "" || v.lastUse.Before(oldestTime)]. *)
Definition scanStep (acc : string * Z) (kv : string * cacheEntry) : string * Z :=
  if String.eqb acc.1 "" || (lastUse kv.2 <? acc.2)
  then (kv.1, lastUse kv.2)
  else acc.

(** The whole scan, over the entries in the order [range] visits them;
    returns [(oldestKey, oldestTime)]. *)
Definition findOldest (visited : list (string * cacheEntry)) : string * Z :=
  foldl scanStep ("", zeroTime) visited.

(** [clearImageCache] *)
Definition clearImageCache (c : ImageCache) : ImageCache :=
  {| data := ∅; maxSize := maxSize c; curSize := 0 |}.

(** [getFromCache]: on a hit the entry's [lastUse] is set to the clock
    reading; a miss changes nothing and does not read the clock. *)
Definition getFromCache (key : string) (now : Z) (c : ImageCache)
  : (list byte * bool) * ImageCache :=
  match data c !! key with
  | None => (([], false), c)
  | Some entry =>
      ((entry_data entry, true),
       {| data := <[key := {| entry_data := entry_data entry; lastUse := now |}]> (data c);
          maxSize := maxSize c;
          curSize := curSize c |})
  end.

(** The cache once the entry [e] stored under [oldestKey] is evicted:
    [imageCache.curSize -= int64(len(imageCache.data[oldestKey].data))] and
    [delete(imageCache.data, oldestKey)]. *)
Definition without (oldestKey : string) (e : cacheEntry) (c : ImageCache)
  : ImageCache :=
  {| data := delete oldestKey (data c);
     maxSize := maxSize c;
     curSize := wrap64 (curSize c - len64 (entry_data e)) |}.

Section Range.

(** The order in which [range] visits the entries of a map. *)
Variable rangeOrder : gmap string cacheEntry → list (string * cacheEntry).

(** The guard of the eviction loop:
    [imageCache.curSize+newSize > imageCache.maxSize]. *)
Definition overBudget (c : ImageCache) (newSize : Z) : bool :=
  maxSize c <? wrap64 (curSize c + newSize).

(** [oldestKey] after the scan of one iteration. *)
Definition oldestKeyOf (c : ImageCache) : string :=
  (findOldest (rangeOrder (data c))).1.

(** The eviction of [oldestKey].  Reading [.data] through a missing key
    dereferences a nil pointer. *)
Definition evict (oldestKey : string) (c : ImageCache) : Run ImageCache :=
  match data c !! oldestKey with
  | None => Panic
  | Some e => Ret (without oldestKey e c)
  end.

(** The eviction loop of [addToCache], with a bound on its iterations. *)
Fixpoint evictLoop (fuel : nat) (newSize : Z) (c : ImageCache) : Run ImageCache :=
  match fuel with
  | O => OutOfFuel
  | S fuel' =>
      if overBudget c newSize then
        let oldestKey := oldestKeyOf c in
        if String.eqb oldestKey "" then Ret c
        else
          match evict oldestKey c with
          | Ret c' => evictLoop fuel' newSize c'
          | r => r
          end
      else Ret c
  end.

(** The number of times the body of the eviction loop is entered. *)
Fixpoint evictIterations (fuel : nat) (newSize : Z) (c : ImageCache) : nat :=
  match fuel with
  | O => O
  | S fuel' =>
      if overBudget c newSize then
        let oldestKey := oldestKeyOf c in
        if String.eqb oldestKey "" then 1%nat
        else
          match evict oldestKey c with
          | Ret c' => S (evictIterations fuel' newSize c')
          | _ => 1%nat
          end
      else O
  end.

(** The insertion that ends [addToCache]. *)
Definition store (key : string) (payload : list byte) (now : Z) (c : ImageCache)
  : ImageCache :=
  {| data := <[key := {| entry_data := payload; lastUse := now |}]> (data c);
     maxSize := maxSize c;
     curSize := wrap64 (curSize c + len64 payload) |}.

(** [addToCache] with an explicit bound on the eviction loop. *)
Definition addToCacheFuel (fuel : nat) (key : string) (payload : list byte)
    (now : Z) (c : ImageCache) : Run ImageCache :=
  match evictLoop fuel (len64 payload) c with
  | Ret c' => Ret (store key payload now c')
  | r => r
  end.

(** [addToCache]: one more iteration than there are entries is always
    enough (see [evictLoop_enough]). *)
Definition addToCache (key : string) (payload : list byte) (now : Z)
    (c : ImageCache) : Run ImageCache :=
  addToCacheFuel (S (size (data c))) key payload now c.

(** A call of one of the three cache operations, with the clock reading it
    sees where it reads the clock. *)
Inductive CacheOp : Type :=
| OpAdd (key : string) (payload : list byte) (now : Z)
| OpGet (key : string) (now : Z)
| OpClear.

Definition runOp (op : CacheOp) (c : ImageCache) : Run ImageCache :=
  match op with
  | OpAdd key payload now => addToCache key payload now c
  | OpGet key now => Ret (getFromCache key now c).2
  | OpClear => Ret (clearImageCache c)
  end.

(** A sequence of calls, each run to completion before the next starts. *)
Fixpoint runOps (ops : list CacheOp) (c : ImageCache) : Run ImageCache :=
  match ops with
  | [] => Ret c
  | op :: ops' =>
      match runOp op c with
      | Ret c' => runOps ops' c'
      | r => r
      end
  end.

End Range.

(** The sum of the stored payload lengths. *)
Definition storedBytes (m : gmap string cacheEntry) : Z :=
  map_fold (λ _ e acc, len64 (entry_data e) + acc) 0 m.

(** The last-access timestamps of the stored entries. *)
Definition stamps (m : gmap string cacheEntry) : list Z :=
  (λ kv, lastUse kv.2) <$> map_to_list m.

End Cache.

(** ** The store and the feed assembler *)

Module Feed.

(** [type User struct] *)
Record User : Type := mkUser {
  User_ID : Z;
  AccountName : string;
  Passhash : string;
  Authority : Z;
  DelFlg : Z;
  User_CreatedAt : Z
}.

(** [type Comment struct] *)
Record Comment : Type := mkComment {
  Comment_ID : Z;
  PostID : Z;
  Comment_UserID : Z;
  Comment_Comment : string;
  Comment_CreatedAt : Z;
  Comment_User : User
}.

(** [type Post struct] *)
Record Post : Type := mkPost {
  Post_ID : Z;
  Post_UserID : Z;
  Imgdata : list byte;
  Body : string;
  Mime : string;
  Post_CreatedAt : Z;
  CommentCount : Z;
  Comments : list Comment;
  Post_User : User;
  CSRFToken : string
}.

(** [User{}] *)
Definition User0 : User :=
  {| User_ID := 0; AccountName := ""; Passhash := ""; Authority := 0;
     DelFlg := 0; User_CreatedAt := 0 |}.

(** The tables [users], [posts] and [comments] behind [db].  A row of
    [posts] or [comments] is kept in the struct the code scans it into; only
    the fields with a [db] tag are columns. *)
Record DB : Type := mkDB {
  users : list User;
  posts : list Post;
  comments : list Comment
}.

(** [id] is the primary key of each table. *)
Definition primaryKeys (db : DB) : Prop :=
  NoDup (User_ID <$> users db) ∧ NoDup (Post_ID <$> posts db)
  ∧ NoDup (Comment_ID <$> comments db).

(** The five user columns both queries select ([id], [account_name],
    [authority], [del_flg], [created_at]), as the code builds a [User] from
    them: [Passhash] is not selected. *)
Definition selectedUser (u : User) : User :=
  {| User_ID := User_ID u; AccountName := AccountName u; Passhash := "";
     Authority := Authority u; DelFlg := DelFlg u;
     User_CreatedAt := User_CreatedAt u |}.

(** A row of the aggregation query; the user columns are NULL when the
    [LEFT JOIN] on [users] finds no row. *)
Record AggRow : Type := mkAggRow {
  agg_post_id : Z;
  agg_comment_count : Z;
  agg_user : option User
}.

(** The aggregation query
    [SELECT p.id, COUNT(c.id), u.id, u.account_name, u.authority, u.del_flg,
     u.created_at FROM posts p LEFT JOIN users u ON p.user_id = u.id
     LEFT JOIN comments c ON p.id = c.post_id WHERE p.id IN (?)
     GROUP BY p.id, u.id].
    With [id] a primary key the groups are the pairs of a selected post and
    its user, and [COUNT(c.id)] is the number of comments of the post. *)
Definition aggQuery (db : DB) (postIDs : list Z) : list AggRow :=
  p ← filter (λ p, Post_ID p ∈ postIDs) (posts db);
  let n := Z.of_nat (length (filter (λ c, PostID c = Post_ID p) (comments db))) in
  match filter (λ u, User_ID u = Post_UserID p) (users db) with
  | [] => [ {| agg_post_id := Post_ID p; agg_comment_count := n; agg_user := None |} ]
  | us => (λ u, {| agg_post_id := Post_ID p; agg_comment_count := n;
                   agg_user := Some u |}) <$> us
  end.

(** [ORDER BY created_at DESC] *)
Definition newerFirst (c1 c2 : Comment) : Prop :=
  Comment_CreatedAt c2 ≤ Comment_CreatedAt c1.

Global Instance newerFirst_dec : RelDecision newerFirst.
Proof. intros c1 c2. unfold newerFirst. apply _. Defined.

(** The stored comments of a post. *)
Definition commentsOf (db : DB) (postID : Z) : list Comment :=
  filter (λ c, PostID c = postID) (comments db).

(** The correlated subquery
    [SELECT id FROM comments WHERE post_id = c.post_id
     ORDER BY created_at DESC LIMIT 3]. *)
Definition recent3 (db : DB) (postID : Z) : list Z :=
  Comment_ID <$>
    take 3 (merge_sort newerFirst (commentsOf db postID)).

(** [FROM comments c JOIN users u ON c.user_id = u.id]; a row is the
    comment with the selected user columns in [Comment_User], as the scan
    loop builds it. *)
Definition joinRow (c : Comment) (u : User) : Comment :=
  {| Comment_ID := Comment_ID c; PostID := PostID c;
     Comment_UserID := Comment_UserID c; Comment_Comment := Comment_Comment c;
     Comment_CreatedAt := Comment_CreatedAt c;
     Comment_User := selectedUser u |}.

Definition commentJoin (db : DB) : list Comment :=
  c ← comments db;
  u ← filter (λ u, User_ID u = Comment_UserID c) (users db);
  [joinRow c u].

(** The [WHERE] clause of the comment query: [c.post_id IN (?)], and, unless
    [allComments], [c.id IN (the correlated subquery)]. *)
Definition commentSelected (db : DB) (postIDs : list Z) (allComments : bool)
    (c : Comment) : Prop :=
  PostID c ∈ postIDs ∧
  (allComments = true ∨ Comment_ID c ∈ recent3 db (PostID c)).

Global Instance commentSelected_dec db postIDs allComments c :
  Decision (commentSelected db postIDs allComments c).
Proof. unfold commentSelected. apply _. Defined.

(** The comment query, with its [ORDER BY c.created_at DESC LIMIT ?]. *)
Definition commentQuery (db : DB) (postIDs : list Z) (allComments : bool)
    (limit : nat) : list Comment :=
  take limit
    (merge_sort newerFirst
       (filter (commentSelected db postIDs allComments) (commentJoin db))).

(** [postMap[p.ID] = &p] for every [p] of [results]: each iteration has its
    own [p] (Go 1.22, which [Request.PathValue] requires), so the map holds
    one copy per id, the last one for a repeated id. *)
Definition buildPostMap (results : list Post) : gmap Z Post :=
  foldl (λ m p, <[Post_ID p := p]> m) ∅ results.

(** One turn of the first [rows.Next()] loop: [rows.Scan] fails on a NULL
    user column; otherwise the post of the row, when it is in the map, gets
    its [CommentCount] and its [User]. *)
Definition scanAggRow (postMap : gmap Z Post) (row : AggRow)
  : Result (gmap Z Post) :=
  match agg_user row with
  | None => Err "sql: Scan error on column index 2: converting NULL to int is unsupported"
  | Some u =>
      match postMap !! agg_post_id row with
      | Some post =>
          Ok (<[agg_post_id row :=
                  {| Post_ID := Post_ID post; Post_UserID := Post_UserID post;
                     Imgdata := Imgdata post; Body := Body post;
                     Mime := Mime post; Post_CreatedAt := Post_CreatedAt post;
                     CommentCount := agg_comment_count row;
                     Comments := Comments post;
                     Post_User := selectedUser u;
                     CSRFToken := CSRFToken post |}]> postMap)
      | None => Ok postMap
      end
  end.

Fixpoint scanAggRows (rows : list AggRow) (postMap : gmap Z Post)
  : Result (gmap Z Post) :=
  match rows with
  | [] => Ok postMap
  | row :: rows' =>
      match scanAggRow postMap row with
      | Ok postMap' => scanAggRows rows' postMap'
      | Err e => Err e
      end
  end.

(** The second [rows.Next()] loop:
    [commentsMap[comment.PostID] = append(commentsMap[comment.PostID], comment)]. *)
Definition buildCommentsMap (rows : list Comment) : gmap Z (list Comment) :=
  foldl (λ m c, <[PostID c := (default [] (m !! PostID c) ++ [c])%list]> m) ∅ rows.

(** One turn of the last loop, on the map of posts and the slice [posts]. *)
Definition assembleStep (commentsMap : gmap Z (list Comment)) (csrfToken : string)
    (st : gmap Z Post * list Post) (p : Post) : gmap Z Post * list Post :=
  match st.1 !! Post_ID p with
  | Some post =>
      let post' :=
        {| Post_ID := Post_ID post; Post_UserID := Post_UserID post;
           Imgdata := Imgdata post; Body := Body post;
           Mime := Mime post; Post_CreatedAt := Post_CreatedAt post;
           CommentCount := CommentCount post;
           Comments := default [] (commentsMap !! Post_ID p);
           Post_User := Post_User post;
           CSRFToken := csrfToken |} in
      (<[Post_ID p := post']> st.1,
       if bool_decide (DelFlg (Post_User post') = 0) then (st.2 ++ [post'])%list else st.2)
  | None => st
  end.

Definition assemble (results : list Post) (postMap : gmap Z Post)
    (commentsMap : gmap Z (list Comment)) (csrfToken : string) : list Post :=
  (foldl (assembleStep commentsMap csrfToken) (postMap, []) results).2.

(** [sqlx.In] reads a query text only for its bind variables [?]. *)
Fixpoint bindVars (query : string) : nat :=
  match query with
  | EmptyString => 0%nat
  | String a rest =>
      ((if Ascii.eqb a "?"%char then 1 else 0) + bindVars rest)%nat
  end.

(** [sqlx.In] of the sqlx library, on arguments that are all slices of ids,
    which is how [makePosts] calls it.  It refuses an empty slice and, with
    no argument at all, returns the query as it is; otherwise it gives every
    [?] of the text the next argument, expanded to one [?] per element: a
    [?] with no argument left and an argument with no [?] left are errors.
    The result here is the flattened argument list; the expanded text
    selects by it. *)
Definition sqlxIn (query : string) (args : list (list Z)) : Result (list Z) :=
  if existsb (λ arg, Nat.eqb (length arg) 0) args
  then Err "empty slice passed to 'in' query"
  else if Nat.eqb (length args) 0 then Ok []
  else if (length args <? bindVars query)%nat
  then Err "number of bindVars exceeds arguments"
  else if (bindVars query <? length args)%nat
  then Err "number of bindVars less than number arguments"
  else Ok (concat args).

(** The text of the aggregation query, white space aside. *)
Definition aggQueryText : string :=
  "SELECT p.id as post_id, COUNT(c.id) as comment_count, u.id as user_id, "
  +:+ "u.account_name, u.authority, u.del_flg, u.created_at as user_created_at "
  +:+ "FROM posts p LEFT JOIN users u ON p.user_id = u.id "
  +:+ "LEFT JOIN comments c ON p.id = c.post_id "
  +:+ "WHERE p.id IN (?) GROUP BY p.id, u.id".

(** The text of the comment query at the time [makePosts] hands it to
    [sqlx.In], white space aside: the subquery is there unless
    [allComments], and [ORDER BY c.created_at DESC LIMIT ?] is already
    appended. *)
Definition commentQueryText (allComments : bool) : string :=
  "SELECT c.*, u.id as user_id, u.account_name, u.authority, u.del_flg, "
  +:+ "u.created_at as user_created_at "
  +:+ "FROM comments c JOIN users u ON c.user_id = u.id "
  +:+ "WHERE c.post_id IN (?)"
  +:+ (if allComments then EmptyString
       else " AND c.id IN ( SELECT id FROM comments WHERE post_id = c.post_id "
            +:+ "ORDER BY created_at DESC LIMIT 3 )")
  +:+ " ORDER BY c.created_at DESC LIMIT ?".

Section Rows.

(** The order in which the store returns the rows of the aggregation query,
    which has no [ORDER BY]. *)
Variable rowOrder : list AggRow → list AggRow.

(** [makePosts].  A failure of the store itself is not modelled: the errors
    are those of [sqlx.In] and of [rows.Scan].  The second [sqlx.In] gets
    the comment query with its [LIMIT ?] and the ids alone; [maxComments]
    joins the arguments only after it has returned. *)
Definition makePosts (db : DB) (results : list Post) (csrfToken : string)
    (allComments : bool) : Result (list Post) :=
  match results with
  | [] => Ok []
  | _ =>
      let postIDs := Post_ID <$> results in
      match sqlxIn aggQueryText [postIDs] with
      | Err e => Err e
      | Ok args =>
          let postMap := buildPostMap results in
          match scanAggRows (rowOrder (aggQuery db args)) postMap with
          | Err e => Err e
          | Ok postMap =>
              match sqlxIn (commentQueryText allComments) [postIDs] with
              | Err e => Err e
              | Ok args =>
                  let maxComments := (length postIDs * 3)%nat in
                  let rows := commentQuery db args allComments maxComments in
                  Ok (assemble results postMap (buildCommentsMap rows) csrfToken)
              end
          end
      end
  end.

End Rows.

End Feed.

(** ** The image transform *)

Module Imaging.

(** The packages [image], [image/jpeg], [image/png], [image/gif] and
    [github.com/nfnt/resize] are not part of the repository.  [resizeImage]
    is written against their interface; an image is known by its bounds
    only. *)
Class ImageLib : Type := {
  Image : Type;
  (** [img.Bounds().Dx()] and [img.Bounds().Dy()] *)
  Dx : Image → Z;
  Dy : Image → Z;
  (** [image.Decode]: the image and the name of its format *)
  Decode : list byte → Result (Image * string);
  (** [resize.Resize(width, height, img, resize.Lanczos3)] *)
  Resize : Z → Z → Image → Image;
  (** [jpeg.Encode] with [Options{Quality}], [png.Encode], [gif.Encode] *)
  jpegEncode : Image → Z → Result (list byte);
  pngEncode : Image → Result (list byte);
  gifEncode : Image → Result (list byte)
}.

(** [MaxImageSize] *)
Definition MaxImageSize : Z := 800.

(** [resizeImage] *)
Definition resizeImage `{ImageLib} (imgData : list byte) (mime : string)
  : Result (list byte) :=
  match Decode imgData with
  | Err e => Err e
  | Ok (img, _) =>
      let resized := Resize MaxImageSize MaxImageSize img in
      if String.eqb mime "image/jpeg" then jpegEncode resized 85
      else if String.eqb mime "image/png" then pngEncode resized
      else if String.eqb mime "image/gif" then gifEncode resized
      else Err ("unsupported image type: " +:+ mime)
  end.

(** The format name [image.Decode] reports for the images of a mime type. *)
Definition formatOf (mime : string) : string :=
  if String.eqb mime "image/jpeg" then "jpeg"
  else if String.eqb mime "image/png" then "png"
  else if String.eqb mime "image/gif" then "gif"
  else "".

Definition supportedMime (mime : string) : Prop :=
  mime = "image/jpeg" ∨ mime = "image/png" ∨ mime = "image/gif".

(** What the libraries document and [resizeImage] relies on.
    [resize.Resize] with a non-zero width and a non-zero height returns an
    image of exactly that width and height (a zero asks for the value that
    keeps the aspect ratio; [resizeImage] passes none).  An encoder accepts
    an image whose sides are below 2^16, and [image.Decode] reads its output
    back as an image of the same format and the same bounds. *)
Class ImageLibSpec `{ImageLib} : Prop := {
  Resize_bounds : ∀ w h img,
    0 < w → 0 < h → 0 < Dx img → 0 < Dy img →
    Dx (Resize w h img) = w ∧ Dy (Resize w h img) = h;
  jpeg_decodable : ∀ img q,
    0 < Dx img < 65536 → 0 < Dy img < 65536 →
    ∃ b img', jpegEncode img q = Ok b ∧ Decode b = Ok (img', "jpeg")
              ∧ Dx img' = Dx img ∧ Dy img' = Dy img;
  png_decodable : ∀ img,
    0 < Dx img < 65536 → 0 < Dy img < 65536 →
    ∃ b img', pngEncode img = Ok b ∧ Decode b = Ok (img', "png")
              ∧ Dx img' = Dx img ∧ Dy img' = Dy img;
  gif_decodable : ∀ img,
    0 < Dx img < 65536 → 0 < Dy img < 65536 →
    ∃ b img', gifEncode img = Ok b ∧ Decode b = Ok (img', "gif")
              ∧ Dx img' = Dx img ∧ Dy img' = Dy img
}.

(** The resize keeps the aspect ratio of [img]: the sides of [img'] are
    in the proportion of the sides of [img]. *)
Definition sameAspect `{ImageLib} (img img' : Image) : Prop :=
  Dx img' * Dy img = Dy img' * Dx img.

(** *** A model of the libraries on headers

    An image is its width and height, and a file is a format tag followed
    by the two sides, two bytes each. *)

Definition byteOf (n : Z) : byte := default x00 (Byte.of_N (Z.to_N n)).
Definition valueOf (b : byte) : Z := Z.of_N (Byte.to_N b).

Definition header (tag : byte) (img : Z * Z) : list byte :=
  [tag; byteOf (img.1 / 256); byteOf (img.1 mod 256);
        byteOf (img.2 / 256); byteOf (img.2 mod 256)].

Definition encodeHeader (tag : byte) (img : Z * Z) : Result (list byte) :=
  if (0 <? img.1) && (img.1 <? 65536) && (0 <? img.2) && (img.2 <? 65536)
  then Ok (header tag img)
  else Err "image is too large to encode".

Definition decodeHeader (b : list byte) : Result ((Z * Z) * string) :=
  match b with
  | [tag; wh; wl; hh; hl] =>
      let img := (256 * valueOf wh + valueOf wl, 256 * valueOf hh + valueOf hl) in
      if Byte.eqb tag x01 then Ok (img, "jpeg")
      else if Byte.eqb tag x02 then Ok (img, "png")
      else if Byte.eqb tag x03 then Ok (img, "gif")
      else Err "image: unknown format"
  | _ => Err "image: unknown format"
  end.

(** [resize.Resize] on bounds: an image without pixels is returned as it
    is; a zero side is computed from the other one,
    [uint(0.7 + side/scale)]. *)
Definition resizeBounds (width height : Z) (img : Z * Z) : Z * Z :=
  if (img.1 <=? 0) || (img.2 <=? 0) then img
  else
    let w := if width =? 0
             then (if height =? 0 then img.1
                   else (7 * img.2 + 10 * img.1 * height) / (10 * img.2))
             else width in
    let h := if height =? 0
             then (if width =? 0 then img.2
                   else (7 * img.1 + 10 * img.2 * width) / (10 * img.1))
             else height in
    (w, h).

Definition headerLib : ImageLib :=
  {| Image := Z * Z;
     Dx := fst;
     Dy := snd;
     Decode := decodeHeader;
     Resize := resizeBounds;
     jpegEncode := λ img _, encodeHeader x01 img;
     pngEncode := encodeHeader x02;
     gifEncode := encodeHeader x03 |}.

End Imaging.

(** ** The handlers *)

Module Handlers.
Import Cache Feed Imaging.

(** What a handler leaves on the [http.ResponseWriter]. *)
Inductive Response : Type :=
| Redirect (location : string) (notice : option string)
    (** [http.Redirect(w, r, location, http.StatusFound)], after the flash
        [notice] was saved in the session, if any *)
| Status (code : Z)
    (** [w.WriteHeader(code)] and nothing else *)
| Silent
    (** the handler returned without writing *)
| Content (code : Z) (headers : list (string * string)) (body : list byte).

(** [UploadLimit] *)
Definition UploadLimit : Z := 10 * 1024 * 1024.

(** [isLogin] *)
Definition isLogin (u : User) : bool := negb (User_ID u =? 0).

(** [strings.Contains] *)
Fixpoint Contains (s substr : string) : bool :=
  String.prefix substr s ||
  match s with
  | EmptyString => false
  | String _ s' => Contains s' substr
  end.

(** The mime type [postIndex] derives from the [Content-Type] of the part. *)
Definition mimeOf (contentType : string) : option string :=
  if Contains contentType "jpeg" then Some "image/jpeg"
  else if Contains contentType "png" then Some "image/png"
  else if Contains contentType "gif" then Some "image/gif"
  else None.

(** [INSERT INTO posts (user_id, mime, imgdata, body) VALUES (?,?,?,?)] and
    [result.LastInsertId()]: the new row gets the next id and the time of
    the insertion. *)
Definition nextPostID (db : DB) : Z :=
  1 + foldr Z.max 0 (Post_ID <$> posts db).

Definition insertPost (db : DB) (userID : Z) (mime : string)
    (imgdata : list byte) (body : string) (now : Z) : DB * Z :=
  let pid := nextPostID db in
  ({| users := users db;
     posts := posts db ++
       [ {| Post_ID := pid; Post_UserID := userID; Imgdata := imgdata;
            Body := body; Mime := mime; Post_CreatedAt := now;
            CommentCount := 0; Comments := []; Post_User := User0;
            CSRFToken := "" |} ];
     comments := comments db |}, pid).

(** The bytes [postIndex] stores: the output of [resizeImage], or the
    upload itself when [resizeImage] fails. *)
Definition storedBytesOf `{ImageLib} (filedata : list byte) (mime : string)
  : list byte :=
  match resizeImage filedata mime with
  | Ok resizedData => resizedData
  | Err _ => filedata
  end.

(** [postIndex].  [me] is the user of the session, [formToken] and
    [sessionToken] the two CSRF tokens it compares, [file] the uploaded part
    (its [Content-Type] and its bytes) when there is one. *)
Definition postIndex `{ImageLib} (me : User) (formToken sessionToken : string)
    (file : option (string * list byte)) (body : string) (now : Z)
    (db : DB) (c : ImageCache) : Response * DB * ImageCache :=
  if negb (isLogin me) then (Redirect "/login" None, db, c)
  else if negb (String.eqb formToken sessionToken) then (Status 422, db, c)
  else
    match file with
    | None => (Redirect "/" (Some "画像が必須です"), db, c)
    | Some (contentType, filedata) =>
        match mimeOf contentType with
        | None =>
            (Redirect "/" (Some "投稿できる画像形式はjpgとpngとgifだけです"), db, c)
        | Some mime =>
            if UploadLimit <? len64 filedata
            then (Redirect "/" (Some "ファイルサイズが大きすぎます"), db, c)
            else
              let resizedData := storedBytesOf filedata mime in
              let '(db', pid) := insertPost db (User_ID me) mime resizedData body now in
              (Redirect ("/posts/" +:+ pretty pid) None, db', clearImageCache c)
        end
    end.

(** [strconv.Atoi]: an optional sign, then decimal digits only, at least
    one, and a value in the range of [int]. *)
Definition digitOf (a : Ascii.ascii) : option Z :=
  let n := Z.of_N (Ascii.N_of_ascii a) in
  if (48 <=? n) && (n <=? 57) then Some (n - 48) else None.

Fixpoint parseDigits (acc : Z) (s : string) : option Z :=
  match s with
  | EmptyString => Some acc
  | String a s' => d ← digitOf a; parseDigits (10 * acc + d) s'
  end.

Definition Atoi (s : string) : option Z :=
  let '(neg, digits) :=
    match s with
    | String "-"%char s' => (true, s')
    | String "+"%char s' => (false, s')
    | _ => (false, s)
    end in
  match digits with
  | EmptyString => None
  | _ =>
      n ← parseDigits 0 digits;
      let v := if neg : bool then - n else n in
      if (- 2 ^ 63 <=? v) && (v <? 2 ^ 63) then Some v else None
  end.

(** [fmt.Sprintf("%d.%s", pid, ext)] *)
Definition cacheKey (pid : Z) (ext : string) : string :=
  pretty pid +:+ "." +:+ ext.

(** [db.Get(&post, "SELECT * FROM posts WHERE id = ?", pid)] *)
Definition getPost (db : DB) (pid : Z) : option Post :=
  head (filter (λ p, Post_ID p = pid) (posts db)).

(** The condition of [getImage] on the extension and the stored mime. *)
Definition extMatches (ext mime : string) : bool :=
  String.eqb ext "jpg" && String.eqb mime "image/jpeg"
  || String.eqb ext "png" && String.eqb mime "image/png"
  || String.eqb ext "gif" && String.eqb mime "image/gif".

(** [getMimeType] *)
Definition getMimeType (ext : string) : string :=
  if String.eqb ext "jpg" then "image/jpeg"
  else if String.eqb ext "png" then "image/png"
  else if String.eqb ext "gif" then "image/gif"
  else "".

Section GetImage.

(** The [ETag] of a payload: its SHA-256 in hexadecimal, in quotes. *)
Variable etag : list byte → string.
Variable rangeOrder : gmap string cacheEntry → list (string * cacheEntry).

(** The end of [getImage]: the headers, then 304 or the bytes. *)
Definition serve (ext ifNoneMatch : string) (imgdata : list byte) : Response :=
  let headers := [("Content-Type", getMimeType ext);
                  ("Cache-Control", "public, max-age=31536000");
                  ("ETag", etag imgdata)] in
  if negb (String.eqb ifNoneMatch "") && String.eqb ifNoneMatch (etag imgdata)
  then Content 304 headers []
  else Content 200 headers imgdata.

(** [getImage] *)
Definition getImage (pidStr ext ifNoneMatch : string) (now : Z) (db : DB)
    (c : ImageCache) : Run (Response * ImageCache) :=
  match Atoi pidStr with
  | None => Ret (Status 404, c)
  | Some pid =>
      let key := cacheKey pid ext in
      let '((imgdata, found), c1) := getFromCache key now c in
      if found then Ret (serve ext ifNoneMatch imgdata, c1)
      else
        match getPost db pid with
        | None => Ret (Silent, c1)
        | Some post =>
            if extMatches ext (Mime post) then
              match addToCache rangeOrder key (Imgdata post) now c1 with
              | Ret c2 => Ret (serve ext ifNoneMatch (Imgdata post), c2)
              | Panic => Panic
              | OutOfFuel => OutOfFuel
              end
            else Ret (Status 404, c1)
        end
  end.

End GetImage.

End Handlers.

(** ** Scenarios *)

Module Scenarios.
Import Cache Feed Imaging Handlers.

(** A payload of [n] bytes and an entry holding one. *)
Definition blob (n : nat) : list byte := repeat x00 n.
Definition entry (n : nat) (t : Z) : cacheEntry :=
  {| entry_data := blob n; lastUse := t |}.

(** A budget of 100 bytes holding A (40 bytes, older) and B (40 bytes,
    newer). *)
Definition cacheAB : ImageCache :=
  {| data := <["B" := entry 40 2]> (<["A" := entry 40 1]> ∅);
     maxSize := 100; curSize := 80 |}.

(** The same cache after a hit on A at time 3. *)
Definition cacheAfterHit : ImageCache := (getFromCache "A" 3 cacheAB).2.

(** A budget of 50 bytes holding one entry of 40 bytes. *)
Definition cacheOne : ImageCache :=
  {| data := <["1.jpg" := entry 40 1]> ∅; maxSize := 50; curSize := 40 |}.

(** Caches with an entry under the empty key. *)
Definition cacheEmptyKey : ImageCache :=
  {| data := <["" := entry 5 1]> ∅; maxSize := 10; curSize := 5 |}.
Definition cacheEmptyKey2 : ImageCache :=
  {| data := <["b.png" := entry 5 2]> (<["" := entry 5 1]> ∅);
     maxSize := 10; curSize := 10 |}.

(** An empty cache with a budget of 10 bytes. *)
Definition cacheTiny : ImageCache := {| data := ∅; maxSize := 10; curSize := 0 |}.

(** Two concurrent misses on the same image, then both populate. *)
Definition doubleMiss : list CacheOp :=
  [OpGet "1.jpg" 1; OpGet "1.jpg" 2;
   OpAdd "1.jpg" [x2a] 3; OpAdd "1.jpg" [x2a] 4].

(** A store with an ordinary user, a banned one, three posts and five
    comments; post 1 has four comments, post 3 one comment by the banned
    user. *)
Definition alice : User :=
  {| User_ID := 1; AccountName := "alice"; Passhash := "h1"; Authority := 0;
     DelFlg := 0; User_CreatedAt := 10 |}.
Definition bob : User :=
  {| User_ID := 2; AccountName := "bob"; Passhash := "h2"; Authority := 0;
     DelFlg := 1; User_CreatedAt := 11 |}.
Definition row (id uid t : Z) : Post :=
  {| Post_ID := id; Post_UserID := uid; Imgdata := []; Body := "caption";
     Mime := "image/png"; Post_CreatedAt := t; CommentCount := 0;
     Comments := []; Post_User := User0; CSRFToken := "" |}.
Definition cmt (id pid uid t : Z) : Comment :=
  {| Comment_ID := id; PostID := pid; Comment_UserID := uid;
     Comment_Comment := "nice"; Comment_CreatedAt := t; Comment_User := User0 |}.
Definition db1 : DB :=
  {| users := [alice; bob];
     posts := [row 1 1 100; row 2 2 101; row 3 1 102];
     comments := [cmt 1 1 2 200; cmt 2 1 1 201; cmt 3 1 1 202; cmt 4 1 1 203;
                  cmt 5 3 2 204] |}.

(** The rows of a listing, newest first. *)
Definition listing : list Post := [row 3 1 102; row 2 2 101; row 1 1 100].

(** A store whose post 42 is a PNG. *)
Definition db42 : DB :=
  {| users := [alice];
     posts := [ {| Post_ID := 42; Post_UserID := 1; Imgdata := blob 3;
                   Body := "caption"; Mime := "image/png"; Post_CreatedAt := 100;
                   CommentCount := 0; Comments := []; Post_User := User0;
                   CSRFToken := "" |} ];
     comments := [] |}.

End Scenarios.

(** ** What the cache is meant to keep *)

Module Invariants.
Import Cache.

(** The accounting of the cache: the counter is the sum of the stored
    payload lengths, and no entry sits under the empty key, which the scan
    of [addToCache] uses for "nothing selected yet". *)
Definition accounted (c : ImageCache) : Prop :=
  data c !! "" = None ∧ curSize c = storedBytes (data c).

End Invariants.

(** ** Links, pages and accounts *)

Module Pages.
Import Cache Feed Imaging Handlers.

(** [imageURL]; [strconv.Itoa] is [pretty]. *)
Definition imageURL (p : Post) : string :=
  let ext :=
    if String.eqb (Mime p) "image/jpeg" then ".jpg"
    else if String.eqb (Mime p) "image/png" then ".png"
    else if String.eqb (Mime p) "image/gif" then ".gif"
    else "" in
  "/image/" +:+ pretty (Post_ID p) +:+ ext.

(** What a page handler passes to its template. *)
Inductive Page : Type :=
| NotFound
    (** [w.WriteHeader(http.StatusNotFound)] *)
| NoPage
    (** the handler returned after [log.Print(err)] *)
| PostPage (p : Post) (me : User)
    (** [layout.html] with one post *)
| IndexPage (posts : list Post) (me : User) (csrfToken : string)
    (** [layout.html] with the listing *)
| AccountPage (posts : list Post) (user : User)
    (postCount commentCount commentedCount : Z) (me : User)
    (** [layout.html] with the posts and the statistics of an account *)
| RedirectTo (location : string)
    (** [http.Redirect] *)
| Forbidden
    (** [w.WriteHeader(http.StatusForbidden)] *)
| BannedPage (users : list User) (me : User) (csrfToken : string).
    (** [banned.html] with the users an administrator can ban *)

(** [postsPerPage] *)
Definition postsPerPage : nat := 20.

(** [ORDER BY created_at DESC] on posts *)
Definition newerPostFirst (p1 p2 : Post) : Prop :=
  Post_CreatedAt p2 ≤ Post_CreatedAt p1.

Global Instance newerPostFirst_dec : RelDecision newerPostFirst.
Proof. intros p1 p2. unfold newerPostFirst. apply _. Defined.

(** A row of [SELECT id, user_id, body, mime, created_at FROM posts]: the
    image bytes are not selected. *)
Definition listedColumns (p : Post) : Post :=
  {| Post_ID := Post_ID p; Post_UserID := Post_UserID p; Imgdata := [];
     Body := Body p; Mime := Mime p; Post_CreatedAt := Post_CreatedAt p;
     CommentCount := 0; Comments := []; Post_User := User0; CSRFToken := "" |}.

(** A row of [SELECT * FROM posts]. *)
Definition allColumns (p : Post) : Post :=
  {| Post_ID := Post_ID p; Post_UserID := Post_UserID p; Imgdata := Imgdata p;
     Body := Body p; Mime := Mime p; Post_CreatedAt := Post_CreatedAt p;
     CommentCount := 0; Comments := []; Post_User := User0; CSRFToken := "" |}.

Section PageHandlers.

Variable rowOrder : list AggRow → list AggRow.

(** [getIndex]: [me] is the user of the session and [csrfToken] its token.
    The query is [SELECT ... FROM posts ORDER BY created_at DESC LIMIT ?]
    with [postsPerPage].  A page is what the handler hands to its template,
    but for the flash notice of the session. *)
Definition getIndex (me : User) (csrfToken : string) (db : DB) : Page :=
  let results :=
    listedColumns <$> take postsPerPage (merge_sort newerPostFirst (posts db)) in
  match makePosts rowOrder db results csrfToken false with
  | Err _ => NoPage
  | Ok posts => IndexPage posts me csrfToken
  end.

(** [getPostsID]: the query is [SELECT * FROM posts WHERE id = ?]. *)
Definition getPostsID (pidStr : string) (me : User) (csrfToken : string)
    (db : DB) : Page :=
  match Atoi pidStr with
  | None => NotFound
  | Some pid =>
      let results := allColumns <$> filter (λ p, Post_ID p = pid) (posts db) in
      match makePosts rowOrder db results csrfToken true with
      | Err _ => NoPage
      | Ok posts =>
          match posts with
          | [] => NotFound
          | p :: _ => PostPage p me
          end
      end
  end.

(** The comparison [account_name = ?] of the store, which depends on the
    collation of the column. *)
Variable sameName : string → string → bool.

(** [getAccountName].  [db.Get] takes the first row of
    [SELECT * FROM users WHERE account_name = ? AND del_flg = 0] and fails
    when there is none; the statistics are the three counts of the second
    query. *)
Definition getAccountName (accountName : string) (me : User)
    (csrfToken : string) (db : DB) : Page :=
  match filter (λ u, sameName (AccountName u) accountName = true ∧ DelFlg u = 0)
               (users db) with
  | [] => NoPage
  | user :: _ =>
      if User_ID user =? 0 then NotFound
      else
        let own := filter (λ p, Post_UserID p = User_ID user) (posts db) in
        let results :=
          listedColumns <$> take postsPerPage (merge_sort newerPostFirst own) in
        match makePosts rowOrder db results csrfToken false with
        | Err _ => NoPage
        | Ok posts =>
            let postCount := length own in
            let commentCount :=
              length (filter (λ c, Comment_UserID c = User_ID user) (comments db)) in
            let commentedCount :=
              length (remove_dups
                (PostID <$> filter (λ c, PostID c ∈ Post_ID <$> own) (comments db))) in
            AccountPage posts user (Z.of_nat postCount) (Z.of_nat commentCount)
                        (Z.of_nat commentedCount) me
        end
  end.

End PageHandlers.

(** [ORDER BY created_at DESC] on users *)
Definition newerUserFirst (u1 u2 : User) : Prop :=
  User_CreatedAt u2 ≤ User_CreatedAt u1.

Global Instance newerUserFirst_dec : RelDecision newerUserFirst.
Proof. intros u1 u2. unfold newerUserFirst. apply _. Defined.

(** [getAdminBanned]: the query is
    [SELECT * FROM users WHERE authority = 0 AND del_flg = 0
     ORDER BY created_at DESC]. *)
Definition getAdminBanned (me : User) (csrfToken : string) (db : DB) : Page :=
  if negb (isLogin me) then RedirectTo "/"
  else if Authority me =? 0 then Forbidden
  else
    BannedPage
      (merge_sort newerUserFirst
         (filter (λ u, Authority u = 0 ∧ DelFlg u = 0) (users db)))
      me csrfToken.

End Pages.

Module Accounts.
Import Cache Feed Imaging Handlers.

(** A user row with another [del_flg]. *)
Definition setDelFlg (v : Z) (u : User) : User :=
  {| User_ID := User_ID u; AccountName := AccountName u; Passhash := Passhash u;
     Authority := Authority u; DelFlg := v; User_CreatedAt := User_CreatedAt u |}.

(** The five statements of [dbInitialize], in order.  [%] is the
    remainder of MySQL, which has the sign of the dividend. *)
Definition sqls : list (DB → DB) :=
  [ (** [DELETE FROM users WHERE id > 1000] *)
    (λ db, {| users := filter (λ u, ¬ 1000 < User_ID u) (users db);
              posts := posts db; comments := comments db |});
    (** [DELETE FROM posts WHERE id > 10000] *)
    (λ db, {| users := users db;
              posts := filter (λ p, ¬ 10000 < Post_ID p) (posts db);
              comments := comments db |});
    (** [DELETE FROM comments WHERE id > 100000] *)
    (λ db, {| users := users db; posts := posts db;
              comments := filter (λ c, ¬ 100000 < Comment_ID c) (comments db) |});
    (** [UPDATE users SET del_flg = 0] *)
    (λ db, {| users := setDelFlg 0 <$> users db;
              posts := posts db; comments := comments db |});
    (** [UPDATE users SET del_flg = 1 WHERE id % 50 = 0] *)
    (λ db, {| users := (λ u, if Z.rem (User_ID u) 50 =? 0
                             then setDelFlg 1 u else u) <$> users db;
              posts := posts db; comments := comments db |}) ].

(** [dbInitialize]: the statements one after the other, errors ignored. *)
Definition dbInitialize (db : DB) : DB := foldl (λ db sql, sql db) db sqls.

Section Login.

(** [digest]: the SHA-512 of a string, in hexadecimal. *)
Variable digest : string → string.

(** [calculateSalt] and [calculatePasshash] *)
Definition calculateSalt (accountName : string) : string := digest accountName.
Definition calculatePasshash (accountName password : string) : string :=
  digest (password +:+ ":" +:+ calculateSalt accountName).

(** The comparison [account_name = ?] of the store, which depends on the
    collation of the column. *)
Variable sameName : string → string → bool.

(** [tryLogin]: [db.Get] takes the first row of
    [SELECT * FROM users WHERE account_name = ? AND del_flg = 0] and fails
    when there is none. *)
Definition tryLogin (db : DB) (accountName password : string) : option User :=
  match filter (λ u, sameName (AccountName u) accountName = true ∧ DelFlg u = 0)
               (users db) with
  | [] => None
  | u :: _ =>
      if String.eqb (calculatePasshash (AccountName u) password) (Passhash u)
      then Some u else None
  end.

End Login.

Section Ban.

(** The comparison [id = ?] of the store when the bound value is the string
    of a form field. *)
Variable idMatches : string → Z → bool.

(** [UPDATE users SET del_flg = ? WHERE id = ?] with [1] and a form value. *)
Definition banUser (db : DB) (uid : string) : DB :=
  {| users := (λ u, if idMatches uid (User_ID u) then setDelFlg 1 u else u)
                <$> users db;
     posts := posts db; comments := comments db |}.

(** [postAdminBanned]; [uids] are the values of [uid[]].  The result of
    each [db.Exec] is ignored, and [r.ParseForm] finds the form already
    parsed by [r.FormValue], so it returns no error. *)
Definition postAdminBanned (me : User) (formToken sessionToken : string)
    (uids : list string) (db : DB) : Response * DB :=
  if negb (isLogin me) then (Redirect "/" None, db)
  else if Authority me =? 0 then (Status 403, db)
  else if negb (String.eqb formToken sessionToken) then (Status 422, db)
  else (Redirect "/admin/banned" None, foldl banUser db uids).

End Ban.

(** [INSERT INTO comments (post_id, user_id, comment) VALUES (?,?,?)]: the
    new row gets the next id and the time of the insertion. *)
Definition insertComment (db : DB) (postID userID : Z) (comment : string)
    (now : Z) : DB :=
  {| users := users db; posts := posts db;
     comments := comments db ++
       [ {| Comment_ID := 1 + foldr Z.max 0 (Comment_ID <$> comments db);
            PostID := postID; Comment_UserID := userID;
            Comment_Comment := comment; Comment_CreatedAt := now;
            Comment_User := User0 |} ] |}.

(** [postComment] *)
Definition postComment (me : User) (formToken sessionToken : string)
    (postIDStr comment : string) (now : Z) (db : DB) : Response * DB :=
  if negb (isLogin me) then (Redirect "/login" None, db)
  else if negb (String.eqb formToken sessionToken) then (Status 422, db)
  else
    match Atoi postIDStr with
    | None => (Silent, db)
    | Some postID =>
        (Redirect ("/posts/" +:+ pretty postID) None,
         insertComment db postID (User_ID me) comment now)
    end.

End Accounts.

(** ** More scenarios *)

Module Cases.
Import Cache Feed Imaging Handlers Scenarios Pages Accounts.

(** The stored post of [db42]. *)
Definition post42 : Post :=
  Eval vm_compute in default (row 0 0 0) (head (posts db42)).


(** An administrator, and a user whose stored hash is that of the password
    "secret" when [digest] is the identity. *)
Definition carol : User :=
  {| User_ID := 3; AccountName := "carol"; Passhash := "h3"; Authority := 1;
     DelFlg := 0; User_CreatedAt := 12 |}.
Definition dave : User :=
  {| User_ID := 4; AccountName := "dave"; Passhash := "secret:dave";
     Authority := 0; DelFlg := 0; User_CreatedAt := 13 |}.

(** The store [db1] with the two of them and a post of [dave]. *)
Definition db2 : DB :=
  {| users := [alice; bob; carol; dave];
     posts := [row 1 1 100; row 2 2 101; row 3 1 102; row 4 4 103];
     comments := comments db1 |}.

(** A store that holds the last post and the last comment [dbInitialize]
    keeps. *)
Definition dbSeeded : DB :=
  {| users := [alice]; posts := [row 10000 1 100];
     comments := [cmt 100000 10000 1 200] |}.

(** A store that compares an id with a form value by reading the value as
    a decimal number. *)
Definition decimalId (uid : string) (id : Z) : bool :=
  bool_decide (Atoi uid = Some id).

(** A user who wrote comments and no post, in a store with a post of
    [alice]. *)
Definition eve : User :=
  {| User_ID := 5; AccountName := "eve"; Passhash := "h5"; Authority := 0;
     DelFlg := 0; User_CreatedAt := 14 |}.
Definition dbReaders : DB :=
  {| users := [alice; eve]; posts := [row 1 1 100];
     comments := [cmt 1 1 5 200; cmt 2 1 5 201] |}.

End Cases.

(** * Properties *)

Import Cache Feed Imaging Handlers Scenarios.

(** ** The image cache *)

Lemma eqb_empty_false (k : string) : k ≠ "" → String.eqb k "" = false.
Proof. intros H. by apply String.eqb_neq. Qed.

(** The scan ends on its accumulator or on the key of a visited entry. *)
Lemma scan_key_origin (l : list (string * cacheEntry)) (acc : string * Z) :
  foldl scanStep acc l = acc ∨
  ∃ e, ((foldl scanStep acc l).1, e) ∈ l ∧ (foldl scanStep acc l).2 = lastUse e.
Proof.
  revert acc. induction l as [|[k e] l IH]; intros acc; simpl; [by left|].
  destruct (IH (scanStep acc (k, e))) as [Heq | (e' & Hin & Ht)].
  - rewrite Heq. unfold scanStep.
    destruct (String.eqb acc.1 "" || (lastUse (k, e).2 <? acc.2)); [|by left].
    right. exists e. simpl. split; [left|done].
  - right. exists e'. split; [by right|done].
Qed.

Lemma findOldest_key_visited (l : list (string * cacheEntry)) :
  (findOldest l).1 ≠ "" → ∃ e, ((findOldest l).1, e) ∈ l.
Proof.
  intros Hne. unfold findOldest in *.
  destruct (scan_key_origin l ("", zeroTime)) as [Heq | (e & Hin & _)]; [|eauto].
  rewrite Heq in Hne. done.
Qed.

(** Once a key is selected, the scan keeps a non-empty key whose time is a
    lower bound of the accumulator's and of every entry visited since. *)
Lemma scan_lower_bound (l : list (string * cacheEntry)) (acc : string * Z) :
  acc.1 ≠ "" → (∀ kv, kv ∈ l → kv.1 ≠ "") →
  (foldl scanStep acc l).1 ≠ "" ∧ (foldl scanStep acc l).2 ≤ acc.2 ∧
  ∀ kv, kv ∈ l → (foldl scanStep acc l).2 ≤ lastUse kv.2.
Proof.
  revert acc. induction l as [|[k e] l IH]; intros acc Hacc Hl; simpl.
  { split; [done|]. split; [lia|]. intros kv Hkv. by apply elem_of_nil in Hkv. }
  assert (Hk : k ≠ "") by (apply (Hl (k, e)); left).
  assert (Hl' : ∀ kv, kv ∈ l → kv.1 ≠ "") by (intros kv Hkv; apply Hl; by right).
  assert (Hstep : (scanStep acc (k, e)).1 ≠ "" ∧ (scanStep acc (k, e)).2 ≤ acc.2
                  ∧ (scanStep acc (k, e)).2 ≤ lastUse e).
  { unfold scanStep. rewrite (eqb_empty_false _ Hacc). simpl.
    destruct (Z.ltb_spec (lastUse e) acc.2); simpl; repeat split; (done || lia). }
  destruct Hstep as (Hs1 & Hs2 & Hs3).
  destruct (IH _ Hs1 Hl') as (Hr1 & Hr2 & Hr3).
  split; [done|]. split; [lia|].
  intros kv [->|Hkv]%elem_of_cons; [simpl; lia|by apply Hr3].
Qed.

(** On entries with non-empty keys the scan selects an entry of minimal
    [lastUse]. *)
Lemma findOldest_min (l : list (string * cacheEntry)) :
  l ≠ [] → (∀ kv, kv ∈ l → kv.1 ≠ "") →
  ∃ e, ((findOldest l).1, e) ∈ l ∧ ∀ kv, kv ∈ l → lastUse e ≤ lastUse kv.2.
Proof.
  destruct l as [|[k0 e0] l]; [done|]. intros _ Hl.
  assert (Hk0 : k0 ≠ "") by (apply (Hl (k0, e0)); left).
  assert (Hl' : ∀ kv, kv ∈ l → kv.1 ≠ "") by (intros kv Hkv; apply Hl; by right).
  unfold findOldest. simpl. unfold scanStep at 2. simpl.
  destruct (scan_lower_bound l (k0, lastUse e0) Hk0 Hl') as (_ & Hle & Hall).
  destruct (scan_key_origin l (k0, lastUse e0)) as [Heq | (e & Hin & Ht)].
  - rewrite Heq in *. simpl in *. exists e0. split; [left|].
    intros kv [->|Hkv]%elem_of_cons; [done|by apply Hall].
  - exists e. split; [by right|]. rewrite Ht in *.
    intros kv [->|Hkv]%elem_of_cons; [done|by apply Hall].
Qed.

Section RangeFacts.
Variable rangeOrder : gmap string cacheEntry → list (string * cacheEntry).
Hypothesis rangeOrder_perm : ∀ m, rangeOrder m ≡ₚ map_to_list m.

Lemma visited_lookup (m : gmap string cacheEntry) k e :
  (k, e) ∈ rangeOrder m ↔ m !! k = Some e.
Proof. rewrite rangeOrder_perm. apply elem_of_map_to_list. Qed.

Lemma oldestKeyOf_present c :
  oldestKeyOf rangeOrder c ≠ "" → is_Some (data c !! oldestKeyOf rangeOrder c).
Proof.
  intros Hne. destruct (findOldest_key_visited _ Hne) as [e He].
  apply visited_lookup in He. eauto.
Qed.

(** One pass through the body of the loop: a break, or an eviction that
    removes exactly one entry. *)
Lemma evict_body c :
  oldestKeyOf rangeOrder c = "" ∨
  oldestKeyOf rangeOrder c ≠ "" ∧
  ∃ e, data c !! oldestKeyOf rangeOrder c = Some e ∧
       evict (oldestKeyOf rangeOrder c) c
         = Ret (without (oldestKeyOf rangeOrder c) e c) ∧
       S (size (data (without (oldestKeyOf rangeOrder c) e c)))
         = size (data c).
Proof.
  destruct (decide (oldestKeyOf rangeOrder c = "")) as [|Hne]; [by left|right].
  split; [done|].
  destruct (oldestKeyOf_present c Hne) as [e He]. exists e.
  split; [done|]. split.
  - unfold evict. by rewrite He.
  - simpl. rewrite map_size_delete, He. simpl.
    assert (size (data c) ≠ 0%nat); [|lia].
    apply map_size_ne_0_lookup. eauto.
Qed.

Lemma evictLoop_enough fuel newSize c :
  (size (data c) < fuel)%nat →
  ∃ c', evictLoop rangeOrder fuel newSize c = Ret c'
        ∧ data c' ⊆ data c
        ∧ maxSize c' = maxSize c
        ∧ (evictIterations rangeOrder fuel newSize c
             ≤ S (size (data c) - size (data c')))%nat.
Proof.
  revert c. induction fuel as [|fuel IH]; intros c Hlt; [lia|].
  simpl. destruct (overBudget c newSize).
  2:{ exists c. repeat split; [done|lia]. }
  destruct (evict_body c) as [Hbrk | (Hne & e & He & Hev & Hsz)].
  - rewrite Hbrk. simpl. exists c. repeat split; [done|lia].
  - rewrite (eqb_empty_false _ Hne), Hev.
    destruct (IH (without (oldestKeyOf rangeOrder c) e c))
      as (c' & Hrun & Hsub & Hmax & Hit); [simpl in Hsz |- *; lia|].
    simpl in Hsz, Hsub, Hmax, Hit. exists c'. split; [exact Hrun|].
    split; [|split; [done|]].
    + etrans; [exact Hsub|]. apply delete_subseteq.
    + pose proof (map_subseteq_size _ _ Hsub) as Hle. lia.
Qed.

(** More fuel does not change the outcome of a run that returned. *)
Lemma evictLoop_fuel_mono fuel fuel' newSize c c' :
  evictLoop rangeOrder fuel newSize c = Ret c' → (fuel ≤ fuel')%nat →
  evictLoop rangeOrder fuel' newSize c = Ret c'.
Proof.
  revert fuel' c. induction fuel as [|fuel IH]; intros fuel' c Hrun Hle; [done|].
  destruct fuel' as [|fuel']; [lia|]. simpl in *.
  destruct (overBudget c newSize); [|done].
  destruct (String.eqb (oldestKeyOf rangeOrder c) ""); [done|].
  destruct (evict (oldestKeyOf rangeOrder c) c); [|done..].
  apply IH; [done|lia].
Qed.

Lemma findOldest_oldest c :
  data c !! "" = None → data c ≠ ∅ →
  ∃ e, data c !! oldestKeyOf rangeOrder c = Some e
       ∧ oldestKeyOf rangeOrder c ≠ ""
       ∧ ∀ k' e', data c !! k' = Some e' → lastUse e ≤ lastUse e'.
Proof.
  intros Hempty Hne.
  assert (Hkeys : ∀ kv, kv ∈ rangeOrder (data c) → kv.1 ≠ "").
  { intros [k e] Hin Hk. simpl in Hk. subst k.
    apply visited_lookup in Hin. congruence. }
  assert (Hnil : rangeOrder (data c) ≠ []).
  { intros Hnil. apply Hne, map_to_list_empty_iff.
    apply Permutation_nil_r. by rewrite <-rangeOrder_perm, Hnil. }
  destruct (findOldest_min _ Hnil Hkeys) as (e & Hin & Hmin).
  exists e. split; [by apply visited_lookup|]. split.
  - apply (Hkeys _ Hin).
  - intros k' e' Hk'. apply (Hmin (k', e')). by apply visited_lookup.
Qed.
End RangeFacts.

Lemma stamps_distinct (m : gmap string cacheEntry) k1 k2 e1 e2 :
  NoDup (stamps m) → m !! k1 = Some e1 → m !! k2 = Some e2 →
  lastUse e1 = lastUse e2 → k1 = k2.
Proof.
  unfold stamps. intros Hnd H1 H2 Heq.
  apply elem_of_map_to_list, list_elem_of_lookup in H1 as [i Hi].
  apply elem_of_map_to_list, list_elem_of_lookup in H2 as [j Hj].
  assert (i = j) as ->.
  { eapply NoDup_lookup; [exact Hnd| |].
    - rewrite list_lookup_fmap, Hi. reflexivity.
    - rewrite list_lookup_fmap, Hj. simpl. by rewrite Heq. }
  congruence.
Qed.

Section Eviction.
Variable rangeOrder : gmap string cacheEntry → list (string * cacheEntry).
Hypothesis rangeOrder_perm : ∀ m, rangeOrder m ≡ₚ map_to_list m.

(** C10 (amended).  For every cache state, whatever order [range] visits
    the map in, and every payload, the eviction loop of [addToCache]
    terminates and [addToCache] returns: each pass through the body either
    deletes exactly one entry or breaks (on an empty scan result, that is
    when the map is empty or holds an entry under the empty key), so the
    body is entered at most once more than the number of entries deleted,
    itself at most the number of entries. *)
Theorem addToCache_total key payload now c :
  ∃ c',
    evictLoop rangeOrder (S (size (data c))) (len64 payload) c = Ret c'
    ∧ addToCache rangeOrder key payload now c = Ret (store key payload now c')
    ∧ (∀ fuel, (size (data c) < fuel)%nat →
         addToCacheFuel rangeOrder fuel key payload now c
           = Ret (store key payload now c'))
    ∧ data c' ⊆ data c
    ∧ (evictIterations rangeOrder (S (size (data c))) (len64 payload) c
         ≤ S (size (data c) - size (data c')))%nat
    ∧ (∀ c1, oldestKeyOf rangeOrder c1 = "" ∨
         ∃ e, data c1 !! oldestKeyOf rangeOrder c1 = Some e
              ∧ evict (oldestKeyOf rangeOrder c1) c1
                  = Ret (without (oldestKeyOf rangeOrder c1) e c1)
              ∧ S (size (data (without (oldestKeyOf rangeOrder c1) e c1)))
                  = size (data c1))
    ∧ (∀ c1, oldestKeyOf rangeOrder c1 = "" →
         data c1 = ∅ ∨ is_Some (data c1 !! "")).
Proof.
  destruct (evictLoop_enough rangeOrder rangeOrder_perm
              (S (size (data c))) (len64 payload) c)
    as (c' & Hrun & Hsub & _ & Hit); [lia|].
  exists c'. split; [done|].
  split; [|split; [|split; [done|split; [done|split]]]].
  - unfold addToCache, addToCacheFuel. by rewrite Hrun.
  - intros fuel Hfuel. unfold addToCacheFuel.
    by rewrite (evictLoop_fuel_mono rangeOrder _ fuel _ _ _ Hrun) by lia.
  - intros c1. destruct (evict_body rangeOrder rangeOrder_perm c1)
      as [Hb | (_ & e & He & Hev & Hsz)]; [by left|right].
    exists e. done.
  - intros c1 Hk. destruct (data c1 !! "") as [e|] eqn:He; [right; eauto|].
    left. destruct (decide (data c1 = ∅)) as [|Hne]; [done|].
    destruct (findOldest_oldest rangeOrder rangeOrder_perm c1 He Hne)
      as (_ & _ & Hkey & _).
    done.
Qed.

(** C5 (amended).  In a cache that holds at least one entry, none under the
    empty key, with pairwise distinct last-access timestamps, an
    [addToCache] that enters the eviction loop first evicts the entry [k]
    with the oldest timestamp, which is gone from the cache it returns
    unless it is the key added; and when the cache is the result of a
    [getFromCache] hit on [hitKey], at a clock reading not earlier than any
    stored timestamp, of a cache that holds another entry, [k] is not
    [hitKey]. *)
Theorem lru_first_victim c newSize :
  data c !! "" = None →
  NoDup (stamps (data c)) →
  (0 < size (data c))%nat →
  overBudget c newSize = true →
  ∃ k e,
    oldestKeyOf rangeOrder c = k
    ∧ data c !! k = Some e
    ∧ (∀ k' e', k' ≠ k → data c !! k' = Some e' → lastUse e < lastUse e')
    ∧ (∀ fuel, evictLoop rangeOrder (S fuel) newSize c
               = evictLoop rangeOrder fuel newSize (without k e c))
    ∧ (∀ key payload now, len64 payload = newSize → key ≠ k →
         ∃ c', addToCache rangeOrder key payload now c = Ret c'
               ∧ data c' !! k = None)
    ∧ (∀ c0 hitKey t other,
         c = (getFromCache hitKey t c0).2 →
         is_Some (data c0 !! hitKey) →
         other ≠ hitKey → is_Some (data c0 !! other) →
         Forall (λ stamp, stamp ≤ t) (stamps (data c0)) →
         k ≠ hitKey).
Proof.
  intros Hempty Hnd Hsz Hover.
  assert (Hne : data c ≠ ∅).
  { intros Hm. rewrite Hm, map_size_empty in Hsz. lia. }
  destruct (findOldest_oldest rangeOrder rangeOrder_perm c Hempty Hne)
    as (e & He & Hk & Hmin).
  exists (oldestKeyOf rangeOrder c), e.
  assert (Hstep : ∀ fuel, evictLoop rangeOrder (S fuel) newSize c
               = evictLoop rangeOrder fuel newSize
                   (without (oldestKeyOf rangeOrder c) e c)).
  { intros fuel. simpl. rewrite Hover, (eqb_empty_false _ Hk).
    unfold evict. by rewrite He. }
  split; [done|]. split; [done|]. split; [|split; [done|split]].
  - intros k' e' Hk' He'. pose proof (Hmin _ _ He') as Hle.
    destruct (decide (lastUse e = lastUse e')) as [Heq|]; [|lia].
    destruct Hk'. symmetry. by eapply stamps_distinct.
  - intros key payload now <- Hkey.
    unfold addToCache, addToCacheFuel. rewrite Hstep.
    destruct (evictLoop_enough rangeOrder rangeOrder_perm (size (data c))
                (len64 payload) (without (oldestKeyOf rangeOrder c) e c))
      as (c' & Hrun & Hsub & _).
    { simpl. rewrite map_size_delete, He. lia. }
    rewrite Hrun. eexists. split; [done|]. simpl.
    rewrite lookup_insert_ne by done.
    eapply lookup_weaken_None; [|exact Hsub]. simpl. apply lookup_delete_eq.
  - intros c0 hitKey t other -> [eh Hh] Hother [eo Ho] Hlt Heq.
    unfold getFromCache in *. rewrite Hh in *. simpl in *.
    rewrite Heq, lookup_insert_eq in He. injection He as <-. simpl in *.
    assert (Hlook : <[hitKey:={| entry_data := entry_data eh; lastUse := t |}]>
                      (data c0) !! other = Some eo)
      by (by rewrite lookup_insert_ne).
    pose proof (Hmin _ _ Hlook) as Hle.
    assert (lastUse eo ≤ t) as Hle'.
    { rewrite Forall_forall in Hlt. apply Hlt. unfold stamps.
      apply list_elem_of_fmap. exists (other, eo).
      split; [done|]. by apply elem_of_map_to_list. }
    simpl in Hle. assert (lastUse eo = t) as Hsame by lia.
    apply Hother. symmetry.
    eapply (stamps_distinct _ hitKey other); [exact Hnd| |exact Hlook|].
    + apply lookup_insert_eq.
    + simpl. by rewrite Hsame.
Qed.
End Eviction.

Lemma addToCache_total_witness :
  ∃ c', addToCache map_to_list "C" (blob 40) 3 cacheAB = Ret c'.
Proof.
  destruct (addToCache_total map_to_list (λ m, reflexivity _)
              "C" (blob 40) 3 cacheAB) as (c' & _ & Hadd & _).
  exists (store "C" (blob 40) 3 c'). exact Hadd.
Defined.

(** C10 as stated fails: the loop breaks on the empty key while an entry
    remains, and on an empty cache its body is entered once although there
    is no entry. *)
Lemma eviction_loop_breaks_early :
  (overBudget cacheEmptyKey 8 = true
   ∧ evictLoop map_to_list 2 8 cacheEmptyKey = Ret cacheEmptyKey
   ∧ size (data cacheEmptyKey) = 1%nat)
  ∧ (evictIterations map_to_list 1 11 cacheTiny = 1%nat
     ∧ size (data cacheTiny) = 0%nat).
Proof. repeat split; vm_compute; reflexivity. Qed.

Lemma lru_first_victim_witness :
  ∃ k e, oldestKeyOf map_to_list cacheAfterHit = k
         ∧ data cacheAfterHit !! k = Some e
         ∧ k ≠ "A"
         ∧ ∃ c', addToCache map_to_list "C" (blob 40) 4 cacheAfterHit = Ret c'
                 ∧ data c' !! k = None.
Proof.
  destruct (lru_first_victim map_to_list (λ m, reflexivity _) cacheAfterHit 40)
    as (k & e & Hk & He & _ & _ & Hadd & Hhit).
  - reflexivity.
  - compute_done.
  - vm_compute. lia.
  - reflexivity.
  - assert (k = "B") as -> by (rewrite <-Hk; reflexivity).
    exists "B", e. split; [done|]. split; [done|]. split.
    + apply (Hhit cacheAB "A" 3 "B"); [reflexivity|by eexists|done|by eexists|].
      compute_done.
    + apply Hadd; [reflexivity|done].
Defined.

(** C5 as stated fails: a hit does not protect the only entry of the cache;
    and an entry under the empty key, although the oldest, survives an
    insertion that finds the cache over its budget, whether [range] visits
    it last (nothing is evicted) or first (the newer entry is). *)
Lemma hit_entry_evicted_when_alone :
  ((getFromCache "1.jpg" 2 cacheOne).1.2 = true
   ∧ NoDup (stamps (data (getFromCache "1.jpg" 2 cacheOne).2))
   ∧ overBudget (getFromCache "1.jpg" 2 cacheOne).2 40 = true
   ∧ ∃ c', addToCache map_to_list "2.jpg" (blob 40) 3
             (getFromCache "1.jpg" 2 cacheOne).2 = Ret c'
           ∧ data c' !! "1.jpg" = None)
  ∧ (NoDup (stamps (data cacheEmptyKey2))
     ∧ overBudget cacheEmptyKey2 5 = true
     ∧ (∃ c', addToCache map_to_list "c.gif" (blob 5) 3 cacheEmptyKey2 = Ret c'
              ∧ is_Some (data c' !! "")
              ∧ is_Some (data c' !! "b.png"))
     ∧ (∃ c', addToCache (λ m, reverse (map_to_list m)) "c.gif" (blob 5) 3
                cacheEmptyKey2 = Ret c'
              ∧ is_Some (data c' !! "")
              ∧ data c' !! "b.png" = None)).
Proof.
  split.
  - split; [reflexivity|]. split; [compute_done|]. split; [reflexivity|].
    eexists. split; vm_compute; reflexivity.
  - split; [compute_done|]. split; [reflexivity|]. split.
    + eexists. split; [vm_compute; reflexivity|].
      split; vm_compute; eauto.
    + eexists. split; [vm_compute; reflexivity|].
      split; vm_compute; eauto.
Qed.

(** C4.  Two misses on one key followed by the two insertions leave the
    counter at twice the stored bytes: the second [addToCache] overwrites
    the entry and adds its length again. *)
Theorem size_counter_drifts_on_overwrite :
  ∃ c, runOps map_to_list doubleMiss imageCache0 = Ret c
       ∧ curSize c = 2 ∧ storedBytes (data c) = 1.
Proof. eexists. repeat split; vm_compute; reflexivity. Qed.

(** ** The feed assembler *)

(** *** The scan of the aggregation rows *)


(** *** The rows of the aggregation query *)

Lemma filter_none {A} (P : A → Prop) `{!∀ x, Decision (P x)} (l : list A) :
  (∀ x, x ∈ l → ¬ P x) → filter P l = [].
Proof.
  induction l as [|a l IH]; intros Hl; [done|].
  rewrite filter_cons_False by (apply Hl; left).
  apply IH. intros x Hx. apply Hl. by right.
Qed.

Lemma NoDup_of_sublist {A} (l1 l2 : list A) :
  l1 `sublist_of` l2 → NoDup l2 → NoDup l1.
Proof. intros Hsub Hnd. by eapply sublist_NoDup. Qed.


(** *** [sqlx.In] on the text of the two queries *)

Lemma aggQueryText_bindVars : bindVars aggQueryText = 1%nat.
Proof. vm_compute. reflexivity. Qed.

(** The comment query has two bind variables, with or without the
    subquery: the one of [IN (?)] and the one of [LIMIT ?]. *)
Lemma commentQueryText_bindVars allComments :
  bindVars (commentQueryText allComments) = 2%nat.
Proof. destruct allComments; vm_compute; reflexivity. Qed.

Lemma sqlxIn_agg (ids : list Z) :
  ids ≠ [] → sqlxIn aggQueryText [ids] = Ok ids.
Proof.
  intros Hne. destruct ids as [|i ids]; [done|].
  unfold sqlxIn. rewrite aggQueryText_bindVars. simpl. by rewrite app_nil_r.
Qed.

Lemma sqlxIn_comments allComments (ids : list Z) :
  ids ≠ [] →
  sqlxIn (commentQueryText allComments) [ids]
  = Err "number of bindVars exceeds arguments".
Proof.
  intros Hne. destruct ids as [|i ids]; [done|].
  unfold sqlxIn. by rewrite commentQueryText_bindVars.
Qed.

(** *** [makePosts] *)

Section MakePosts.
Variable rowOrder : list AggRow → list AggRow.

(** On a non-empty list [makePosts] gets as far as the second [sqlx.In]
    when the scan of the aggregation rows succeeds, and no further. *)
Lemma makePosts_nonempty db results csrf allComments :
  results ≠ [] →
  makePosts rowOrder db results csrf allComments
  = match scanAggRows (rowOrder (aggQuery db (Post_ID <$> results)))
            (buildPostMap results) with
    | Err e => Err e
    | Ok _ => Err "number of bindVars exceeds arguments"
    end.
Proof.
  intros Hne. destruct results as [|p results]; [done|].
  unfold makePosts. rewrite sqlxIn_agg by done.
  destruct (scanAggRows _ _); [|done].
  by rewrite sqlxIn_comments.
Qed.

Lemma makePosts_fails_nonempty db results csrf allComments :
  results ≠ [] →
  ∃ msg, makePosts rowOrder db results csrf allComments = Err msg.
Proof.
  intros Hne. rewrite makePosts_nonempty by done.
  destruct (scanAggRows _ _); eauto.
Qed.



(** C2 (the code fails the claim).  For every non-empty list of post rows
    [makePosts] returns an error and no entries: the error of [rows.Scan]
    when the scan of the aggregation rows fails, and otherwise the error of
    [sqlx.In] on the comment query, whose text has two bind variables for
    the one argument. *)
Theorem makePosts_fails_on_nonempty_input db results csrf allComments :
  results ≠ [] →
  makePosts rowOrder db results csrf allComments
    = Err "number of bindVars exceeds arguments"
  ∨ ∃ msg,
      scanAggRows (rowOrder (aggQuery db (Post_ID <$> results)))
                  (buildPostMap results) = Err msg
      ∧ makePosts rowOrder db results csrf allComments = Err msg.
Proof.
  intros Hne. rewrite makePosts_nonempty by done.
  destruct (scanAggRows _ _) as [postMap|msg]; [by left|right; eauto].
Qed.

End MakePosts.


Lemma makePosts_fails_on_nonempty_input_witness :
  makePosts reverse db1 listing "tok" false
  = Err "number of bindVars exceeds arguments".
Proof.
  destruct (makePosts_fails_on_nonempty_input reverse db1 listing "tok" false)
    as [Hin|(msg & Hscan & _)].
  - discriminate.
  - exact Hin.
  - vm_compute in Hscan. discriminate.
Defined.

(** C3 (the code fails the claim).  Post 1 of [db1] has four comments;
    [makePosts] on that post with [allComments] returns the error of
    [sqlx.In], so no entry and no comment. *)
Theorem allComments_returns_error :
  length (commentsOf db1 1) = 4%nat
  ∧ makePosts reverse db1 [row 1 1 100] "tok" true
    = Err "number of bindVars exceeds arguments".
Proof. split; vm_compute; reflexivity. Qed.

(** C6 (the code fails the claim).  The three most recent comments of
    post 1 of [db1] are 4, 3 and 2; [makePosts] on a listing with that
    post, without [allComments], returns the error of [sqlx.In], so no
    entry to list them. *)
Theorem recent_comments_not_returned :
  recent3 db1 1 = [4; 3; 2]
  ∧ row 1 1 100 ∈ listing
  ∧ makePosts reverse db1 listing "tok" false
    = Err "number of bindVars exceeds arguments".
Proof.
  split; [vm_compute; reflexivity|]. split; [|vm_compute; reflexivity].
  unfold listing. right. right. left.
Qed.

(** ** The image transform and the handlers *)

(** *** The header model satisfies the contract of the libraries *)

Lemma valueOf_byteOf n : 0 ≤ n < 256 → valueOf (byteOf n) = n.
Proof.
  intros Hn. unfold valueOf, byteOf.
  destruct (Byte.of_N (Z.to_N n)) as [b|] eqn:Hb; simpl.
  - apply Byte.to_of_N in Hb. rewrite Hb. lia.
  - apply Byte.of_N_None_iff in Hb. lia.
Qed.

Lemma decode_header tag w h :
  0 < w < 65536 → 0 < h < 65536 →
  decodeHeader (header tag (w, h))
  = if Byte.eqb tag x01 then Ok ((w, h), "jpeg")
    else if Byte.eqb tag x02 then Ok ((w, h), "png")
    else if Byte.eqb tag x03 then Ok ((w, h), "gif")
    else Err "image: unknown format".
Proof.
  intros Hw Hh. unfold decodeHeader, header. cbn [fst snd].
  rewrite !valueOf_byteOf
    by (try apply Z.mod_pos_bound; try split;
        try apply Z.div_pos; try apply Z.div_lt_upper_bound; lia).
  rewrite <-!Z.div_mod by lia. done.
Qed.

Lemma encodeHeader_decodable tag fmt (img : Z * Z) :
  (∀ w h, 0 < w < 65536 → 0 < h < 65536 →
          decodeHeader (header tag (w, h)) = Ok ((w, h), fmt)) →
  0 < img.1 < 65536 → 0 < img.2 < 65536 →
  ∃ b img', encodeHeader tag img = Ok b ∧ decodeHeader b = Ok (img', fmt)
            ∧ img'.1 = img.1 ∧ img'.2 = img.2.
Proof.
  intros Hdec Hw Hh. destruct img as [w h]. simpl in *.
  exists (header tag (w, h)), (w, h). unfold encodeHeader. simpl.
  destruct (Z.ltb_spec 0 w), (Z.ltb_spec w 65536),
    (Z.ltb_spec 0 h), (Z.ltb_spec h 65536); try lia. simpl.
  split; [done|]. split; [by apply Hdec|done].
Qed.

Lemma headerLib_spec : @ImageLibSpec headerLib.
Proof.
  split; simpl.
  - intros w h [dx dy] Hw Hh Hdx Hdy. simpl in *. unfold resizeBounds. simpl.
    destruct (Z.leb_spec dx 0), (Z.leb_spec dy 0); try lia. simpl.
    destruct (Z.eqb_spec w 0), (Z.eqb_spec h 0); try lia.
  - intros img _. apply encodeHeader_decodable.
    intros w h Hw Hh. by rewrite decode_header.
  - intros img. apply encodeHeader_decodable.
    intros w h Hw Hh. by rewrite decode_header.
  - intros img. apply encodeHeader_decodable.
    intros w h Hw Hh. by rewrite decode_header.
Qed.

(** *** [resizeImage] *)

(** Encode the resized image with the codec [codec] of the mime and read it
    back: [Hw] and [Hh] are the bounds of the resized image. *)
Ltac read_back codec Hw Hh Hfin :=
  let b := fresh "b" in
  let img' := fresh "img'" in
  destruct codec as (b & img' & ? & ? & ? & ?);
    [rewrite Hw; done | rewrite Hh; done |];
  exists b, img'; split; [done|]; split; [done|]; by apply Hfin.

(** C7 (amended).  With libraries that meet their contract, for bytes that
    decode to an image with pixels and a supported mime, [resizeImage]
    returns bytes that decode as the format of that mime to an image whose
    width and height are both exactly [MaxImageSize]; the aspect ratio of
    the input is kept exactly when the input is square. *)
Theorem resizeImage_bounds `{ImageLibSpec} imgData mime img fmt :
  Decode imgData = Ok (img, fmt) →
  0 < Dx img → 0 < Dy img →
  supportedMime mime →
  ∃ out img',
    resizeImage imgData mime = Ok out
    ∧ Decode out = Ok (img', formatOf mime)
    ∧ Dx img' = MaxImageSize ∧ Dy img' = MaxImageSize
    ∧ (sameAspect img img' ↔ Dx img = Dy img).
Proof.
  intros Hdec Hdx Hdy Hmime. unfold resizeImage. rewrite Hdec.
  destruct (Resize_bounds MaxImageSize MaxImageSize img) as [Hw Hh];
    [done..|].
  set (resized := Resize MaxImageSize MaxImageSize img) in *.
  assert (Hfin : ∀ img',
    Dx img' = Dx resized → Dy img' = Dy resized →
    Dx img' = MaxImageSize ∧ Dy img' = MaxImageSize
    ∧ (sameAspect img img' ↔ Dx img = Dy img)).
  { intros img' Hx Hy. rewrite Hx, Hy, Hw, Hh. split; [done|]. split; [done|].
    unfold sameAspect. rewrite Hx, Hy, Hw, Hh. unfold MaxImageSize. lia. }
  destruct Hmime as [-> | [-> | ->]]; simpl.
  - read_back (jpeg_decodable resized 85) Hw Hh Hfin.
  - read_back (png_decodable resized) Hw Hh Hfin.
  - read_back (gif_decodable resized) Hw Hh Hfin.
Qed.

Lemma resizeImage_bounds_witness :
  ∃ out img',
    @resizeImage headerLib (header x01 (100, 100)) "image/jpeg" = Ok out
    ∧ @Decode headerLib out = Ok (img', "jpeg")
    ∧ @Dx headerLib img' = 800 ∧ @Dy headerLib img' = 800.
Proof.
  destruct (@resizeImage_bounds headerLib headerLib_spec
              (header x01 (100, 100)) "image/jpeg" (100, 100) "jpeg")
    as (out & img' & Hout & Hdec & Hx & Hy & _).
  - reflexivity.
  - simpl. lia.
  - simpl. lia.
  - by left.
  - exists out, img'. done.
Defined.

(** C7 as stated fails: a 5000x3000 JPEG comes back as an 800x800 one. *)
Lemma resizeImage_distorts_5000x3000 :
  @ImageLibSpec headerLib
  ∧ @Decode headerLib (header x01 (5000, 3000)) = Ok ((5000, 3000), "jpeg")
  ∧ @resizeImage headerLib (header x01 (5000, 3000)) "image/jpeg"
    = Ok (header x01 (800, 800))
  ∧ @Decode headerLib (header x01 (800, 800)) = Ok ((800, 800), "jpeg")
  ∧ ¬ @sameAspect headerLib (5000, 3000) (800, 800).
Proof.
  split; [exact headerLib_spec|]. repeat split; try reflexivity.
  unfold sameAspect. simpl. lia.
Qed.

(** *** [postIndex] *)

(** C9.  For a logged-in user with a valid token and an upload of a
    supported content type within the size limit, when [resizeImage] fails
    [postIndex] inserts the post with the uploaded bytes under the declared
    mime, clears the cache and redirects to the new post, exactly as it does
    with the resized bytes when [resizeImage] succeeds. *)
Theorem postIndex_keeps_original_on_resize_failure `{ImageLib}
    me formToken contentType mime filedata body now db c e :
  isLogin me = true →
  mimeOf contentType = Some mime →
  len64 filedata ≤ UploadLimit →
  resizeImage filedata mime = Err e →
  postIndex me formToken formToken (Some (contentType, filedata)) body now db c
  = (Redirect ("/posts/" +:+ pretty (nextPostID db)) None,
     (insertPost db (User_ID me) mime filedata body now).1,
     clearImageCache c)
  ∧ (∃ row,
       posts (insertPost db (User_ID me) mime filedata body now).1
         = (posts db ++ [row])%list
       ∧ Imgdata row = filedata ∧ Mime row = mime
       ∧ Post_UserID row = User_ID me ∧ Body row = body)
  ∧ (∀ filedata' resized,
       len64 filedata' ≤ UploadLimit →
       resizeImage filedata' mime = Ok resized →
       postIndex me formToken formToken (Some (contentType, filedata'))
                 body now db c
       = (Redirect ("/posts/" +:+ pretty (nextPostID db)) None,
          (insertPost db (User_ID me) mime resized body now).1,
          clearImageCache c)).
Proof.
  intros Hlogin Hmime Hlen Hfail.
  assert (Hgen : ∀ fd, len64 fd ≤ UploadLimit →
    postIndex me formToken formToken (Some (contentType, fd)) body now db c
    = (Redirect ("/posts/" +:+ pretty (nextPostID db)) None,
       (insertPost db (User_ID me) mime (storedBytesOf fd mime) body now).1,
       clearImageCache c)).
  { intros fd Hfd. unfold postIndex. rewrite Hlogin, String.eqb_refl, Hmime.
    simpl. destruct (Z.ltb_spec UploadLimit (len64 fd)); [lia|]. done. }
  split; [|split].
  - rewrite Hgen by done. unfold storedBytesOf. by rewrite Hfail.
  - eexists. split; [reflexivity|]. done.
  - intros fd resized Hfd Hok. rewrite Hgen by done.
    unfold storedBytesOf. by rewrite Hok.
Qed.

Lemma postIndex_keeps_original_on_resize_failure_witness :
  @postIndex headerLib alice "tok" "tok" (Some ("image/jpeg", blob 3))
     "hello" 300 db1 cacheAB
  = (Redirect "/posts/4" None,
     (insertPost db1 1 "image/jpeg" (blob 3) "hello" 300).1,
     clearImageCache cacheAB).
Proof.
  destruct (@postIndex_keeps_original_on_resize_failure headerLib
              alice "tok" "image/jpeg" "image/jpeg" (blob 3) "hello" 300 db1
              cacheAB "image: unknown format") as [Hpost _].
  - reflexivity.
  - reflexivity.
  - vm_compute. discriminate.
  - reflexivity.
  - exact Hpost.
Defined.

(** *** [getImage] *)

Lemma extMatches_spec ext mime :
  extMatches ext mime = true ↔
  (ext = "jpg" ∧ mime = "image/jpeg") ∨ (ext = "png" ∧ mime = "image/png")
  ∨ (ext = "gif" ∧ mime = "image/gif").
Proof.
  unfold extMatches. rewrite !orb_true_iff, !andb_true_iff, !String.eqb_eq.
  tauto.
Qed.

(** C8.  When the key is not in the cache and the stored post has a mime
    type that does not go with the requested extension, [getImage] answers
    404 and returns the cache as it was. *)
Theorem getImage_mismatch_not_found
    (etag : list byte → string)
    (rangeOrder : gmap string cacheEntry → list (string * cacheEntry))
    pidStr ext ifNoneMatch now db c pid post :
  Atoi pidStr = Some pid →
  data c !! cacheKey pid ext = None →
  getPost db pid = Some post →
  ¬ ((ext = "jpg" ∧ Mime post = "image/jpeg")
     ∨ (ext = "png" ∧ Mime post = "image/png")
     ∨ (ext = "gif" ∧ Mime post = "image/gif")) →
  getImage etag rangeOrder pidStr ext ifNoneMatch now db c
  = Ret (Status 404, c).
Proof.
  intros Hpid Hmiss Hpost Hmis. unfold getImage, getFromCache.
  rewrite Hpid, Hmiss, Hpost.
  destruct (extMatches ext (Mime post)) eqn:Hm; [|done].
  by apply extMatches_spec in Hm.
Qed.

Lemma getImage_mismatch_not_found_witness :
  getImage (λ _, "etag") map_to_list "42" "jpg" "" 5 db42 imageCache0
  = Ret (Status 404, imageCache0).
Proof.
  eapply (getImage_mismatch_not_found (λ _, "etag") map_to_list
            "42" "jpg" "" 5 db42 imageCache0 42).
  - reflexivity.
  - reflexivity.
  - reflexivity.
  - simpl. intros [[_ ?]|[[? _]|[? _]]]; discriminate.
Defined.

(** * Further properties *)

Import Invariants.

(** ** The cache operations *)

Lemma len64_nonneg b : 0 ≤ len64 b.
Proof. unfold len64. lia. Qed.

Lemma wrap64_small z : - 2 ^ 63 ≤ z < 2 ^ 63 → wrap64 z = z.
Proof.
  intros Hz. unfold wrap64.
  rewrite Z.mod_small by lia. lia.
Qed.

Lemma storedBytes_empty : storedBytes ∅ = 0.
Proof. unfold storedBytes. apply map_fold_empty. Qed.

Lemma storedBytes_insert (m : gmap string cacheEntry) k e :
  m !! k = None →
  storedBytes (<[k := e]> m) = len64 (entry_data e) + storedBytes m.
Proof.
  intros Hk. unfold storedBytes.
  rewrite map_fold_insert_L; [done| |done]. intros. lia.
Qed.

Lemma storedBytes_delete (m : gmap string cacheEntry) k e :
  m !! k = Some e →
  storedBytes m = len64 (entry_data e) + storedBytes (delete k m).
Proof.
  intros Hk. unfold storedBytes.
  rewrite (map_fold_delete_L _ _ k e m); [done| |done]. intros. lia.
Qed.

Lemma storedBytes_nonneg (m : gmap string cacheEntry) : 0 ≤ storedBytes m.
Proof.
  induction m as [|k e m Hk _ IH] using map_first_key_ind.
  - by rewrite storedBytes_empty.
  - rewrite storedBytes_insert by done. pose proof (len64_nonneg (entry_data e)). lia.
Qed.

(** Replacing an entry by one with the same payload keeps the sum. *)
Lemma storedBytes_touch (m : gmap string cacheEntry) k e t :
  m !! k = Some e →
  storedBytes (<[k := {| entry_data := entry_data e; lastUse := t |}]> m)
  = storedBytes m.
Proof.
  intros Hk. rewrite <-insert_delete_eq.
  rewrite storedBytes_insert by apply lookup_delete_eq.
  by rewrite (storedBytes_delete m k e).
Qed.

Section CacheSteps.
Variable rangeOrder : gmap string cacheEntry → list (string * cacheEntry).
Hypothesis rangeOrder_perm : ∀ m, rangeOrder m ≡ₚ map_to_list m.

(** The eviction loop only deletes entries and never touches the budget. *)
Lemma evictLoop_result newSize c :
  ∃ c1, evictLoop rangeOrder (S (size (data c))) newSize c = Ret c1
        ∧ data c1 ⊆ data c ∧ maxSize c1 = maxSize c.
Proof.
  destruct (evictLoop_enough rangeOrder rangeOrder_perm
              (S (size (data c))) newSize c) as (c1 & Hrun & Hsub & Hmax & _);
    [lia|eauto].
Qed.

(** X1.  [addToCache] then [getFromCache]: what was put under a key is what a
    read of that key returns, whatever was evicted to make room. *)
Theorem addToCache_getFromCache key payload now t c :
  ∃ c', addToCache rangeOrder key payload now c = Ret c'
        ∧ (getFromCache key t c').1 = (payload, true).
Proof.
  destruct (evictLoop_result (len64 payload) c) as (c1 & Hrun & _).
  exists (store key payload now c1). split.
  - unfold addToCache, addToCacheFuel. by rewrite Hrun.
  - unfold getFromCache, store. simpl. by rewrite lookup_insert_eq.
Qed.

(** X2.  [addToCache] keeps the budget, stores the payload with the clock
    reading under the key, and leaves every other entry either as it was or
    evicted: it adds no other key and alters no other entry. *)
Theorem addToCache_touches_only_key key payload now c :
  ∃ c', addToCache rangeOrder key payload now c = Ret c'
        ∧ maxSize c' = maxSize c
        ∧ data c' !! key = Some {| entry_data := payload; lastUse := now |}
        ∧ ∀ k e, k ≠ key → data c' !! k = Some e → data c !! k = Some e.
Proof.
  destruct (evictLoop_result (len64 payload) c) as (c1 & Hrun & Hsub & Hmax).
  exists (store key payload now c1). split.
  { unfold addToCache, addToCacheFuel. by rewrite Hrun. }
  split; [done|]. split; [apply lookup_insert_eq|].
  intros k e Hk. simpl. rewrite lookup_insert_ne by done.
  intros He. by eapply lookup_weaken.
Qed.

(** X3.  Within the budget [addToCache] evicts nothing. *)
Theorem addToCache_within_budget_keeps_all key payload now c :
  curSize c + len64 payload ≤ maxSize c →
  - 2 ^ 63 ≤ curSize c + len64 payload < 2 ^ 63 →
  ∃ c', addToCache rangeOrder key payload now c = Ret c'
        ∧ ∀ k, k ≠ key → data c' !! k = data c !! k.
Proof.
  intros Hfit Hrange. exists (store key payload now c). split.
  - unfold addToCache, addToCacheFuel. simpl. unfold overBudget.
    rewrite wrap64_small by done.
    destruct (Z.ltb_spec (maxSize c) (curSize c + len64 payload)); [lia|done].
  - intros k Hk. simpl. by rewrite lookup_insert_ne.
Qed.

(** The loop on an accounted cache: it returns an accounted cache that is
    within the budget for the new payload, or empty. *)
Lemma evictLoop_accounted newSize fuel c :
  (size (data c) < fuel)%nat →
  accounted c → 0 ≤ newSize → storedBytes (data c) + newSize < 2 ^ 63 →
  ∃ c1, evictLoop rangeOrder fuel newSize c = Ret c1
        ∧ accounted c1 ∧ data c1 ⊆ data c ∧ maxSize c1 = maxSize c
        ∧ storedBytes (data c1) ≤ storedBytes (data c)
        ∧ (storedBytes (data c1) + newSize ≤ maxSize c1 ∨ data c1 = ∅).
Proof.
  revert c. induction fuel as [|fuel IH]; intros c Hfuel Hacc Hnew Hbound; [lia|].
  destruct Hacc as [Hempty Hcur]. pose proof (storedBytes_nonneg (data c)) as Hpos.
  simpl. unfold overBudget. rewrite Hcur, wrap64_small by lia.
  destruct (Z.ltb_spec (maxSize c) (storedBytes (data c) + newSize)) as [Hover|Hfit].
  2:{ exists c. repeat split; try done; lia. }
  destruct (decide (data c = ∅)) as [Hnil|Hne].
  { assert (Hk : oldestKeyOf rangeOrder c = "").
    { destruct (decide (oldestKeyOf rangeOrder c = "")) as [|Hk]; [done|].
      destruct (oldestKeyOf_present rangeOrder rangeOrder_perm c Hk) as [e He].
      rewrite Hnil, lookup_empty in He. done. }
    rewrite Hk. simpl. exists c. repeat split; try done; try lia. by right. }
  destruct (findOldest_oldest rangeOrder rangeOrder_perm c Hempty Hne)
    as (e & He & Hk & _).
  rewrite (eqb_empty_false _ Hk). unfold evict. rewrite He.
  pose proof (storedBytes_delete _ _ _ He) as Hdel.
  pose proof (len64_nonneg (entry_data e)) as Hlen.
  pose proof (storedBytes_nonneg (delete (oldestKeyOf rangeOrder c) (data c))).
  destruct (IH (without (oldestKeyOf rangeOrder c) e c))
    as (c1 & Hrun & Hacc1 & Hsub & Hmax & Hle & Hfin).
  - simpl. rewrite map_size_delete, He. simpl.
    assert (size (data c) ≠ 0%nat) by (apply map_size_ne_0_lookup; eauto). lia.
  - split; simpl.
    + rewrite lookup_delete_ne by done. done.
    + rewrite Hcur, wrap64_small by lia. lia.
  - done.
  - simpl. lia.
  - exists c1. simpl in *. split; [done|]. split; [done|].
    split; [etrans; [exact Hsub|apply delete_subseteq]|].
    split; [done|]. split; [lia|done].
Qed.

Lemma addToCache_fresh_accounted key payload now c :
  accounted c →
  key ≠ "" →
  data c !! key = None →
  storedBytes (data c) + len64 payload < 2 ^ 63 →
  ∃ c', addToCache rangeOrder key payload now c = Ret c'
        ∧ accounted c'
        ∧ (storedBytes (data c') ≤ maxSize c'
           ∨ data c' = {[ key := {| entry_data := payload; lastUse := now |} ]}).
Proof.
  intros Hacc Hkey Hfresh Hbound.
  destruct (evictLoop_accounted (len64 payload) (S (size (data c))) c)
    as (c1 & Hrun & [Hempty1 Hcur1] & Hsub & Hmax & Hle & Hfin);
    [lia|done|apply len64_nonneg|done|].
  assert (Hfresh1 : data c1 !! key = None)
    by (by eapply lookup_weaken_None).
  pose proof (storedBytes_nonneg (data c1)) as Hpos.
  pose proof (len64_nonneg payload) as Hlen.
  exists (store key payload now c1). split.
  { unfold addToCache, addToCacheFuel. by rewrite Hrun. }
  split; [split|]; simpl.
  - by rewrite lookup_insert_ne.
  - rewrite storedBytes_insert by done. simpl.
    rewrite Hcur1, wrap64_small by lia. lia.
  - rewrite storedBytes_insert by done. simpl.
    destruct Hfin as [Hfit | ->]; [left; lia|right]. apply insert_empty.
Qed.

(** X4.  [addToCache] of a key that is not in the cache keeps the accounting and
    the budget: afterwards the counter is again the sum of the stored
    payload lengths, and that sum is within [maxSize] unless the new entry
    is alone in the cache. *)
Theorem addToCache_fresh_keeps_accounting key payload now c :
  accounted c →
  key ≠ "" →
  data c !! key = None →
  storedBytes (data c) + len64 payload < 2 ^ 63 →
  ∃ c', addToCache rangeOrder key payload now c = Ret c'
        ∧ accounted c'
        ∧ (storedBytes (data c') ≤ maxSize c'
           ∨ data c' = {[ key := {| entry_data := payload; lastUse := now |} ]}).
Proof. apply addToCache_fresh_accounted. Qed.

End CacheSteps.

Lemma getFromCache_contents key t c :
  let c' := (getFromCache key t c).2 in
  (∀ k, entry_data <$> data c' !! k = entry_data <$> data c !! k)
  ∧ (∀ k, k ≠ key → data c' !! k = data c !! k)
  ∧ curSize c' = curSize c ∧ maxSize c' = maxSize c
  ∧ storedBytes (data c') = storedBytes (data c)
  ∧ size (data c') = size (data c)
  ∧ ((getFromCache key t c).1.2 = false → c' = c).
Proof.
  unfold getFromCache. destruct (data c !! key) as [e|] eqn:He; simpl.
  2:{ repeat split; done. }
  split; [|split; [|split; [done|split; [done|split; [|split; [|done]]]]]].
  - intros k. destruct (decide (k = key)) as [->|Hk].
    + by rewrite lookup_insert_eq, He.
    + by rewrite lookup_insert_ne.
  - intros k Hk. by rewrite lookup_insert_ne.
  - by apply storedBytes_touch.
  - apply map_size_insert_Some. eauto.
Qed.

(** X5.  [getFromCache] never changes what is stored: the keys, the payloads,
    the counter and the budget stay, only the timestamp of the entry read
    moves; a miss changes nothing. *)
Theorem getFromCache_keeps_contents key t c :
  let c' := (getFromCache key t c).2 in
  (∀ k, entry_data <$> data c' !! k = entry_data <$> data c !! k)
  ∧ (∀ k, k ≠ key → data c' !! k = data c !! k)
  ∧ curSize c' = curSize c ∧ maxSize c' = maxSize c
  ∧ storedBytes (data c') = storedBytes (data c)
  ∧ size (data c') = size (data c)
  ∧ ((getFromCache key t c).1.2 = false → c' = c).
Proof. apply getFromCache_contents. Qed.

(** ** [getImage] *)

Lemma getPost_stored db pid post :
  getPost db pid = Some post → post ∈ posts db ∧ Post_ID post = pid.
Proof.
  unfold getPost. intros Hhead.
  destruct (filter (λ p, Post_ID p = pid) (posts db)) as [|p ps] eqn:Hf; [done|].
  simpl in Hhead. injection Hhead as ->.
  assert (Hin : post ∈ filter (λ p, Post_ID p = pid) (posts db))
    by (rewrite Hf; left).
  apply list_elem_of_filter in Hin. tauto.
Qed.

Lemma serve_200 etag ext ifNoneMatch imgdata hs body :
  serve etag ext ifNoneMatch imgdata = Content 200 hs body →
  body = imgdata
  ∧ hs = [("Content-Type", getMimeType ext);
          ("Cache-Control", "public, max-age=31536000");
          ("ETag", etag imgdata)].
Proof.
  unfold serve.
  destruct (negb (String.eqb ifNoneMatch "") && String.eqb ifNoneMatch (etag imgdata));
    intros [= <- <-]; done.
Qed.

Lemma serve_matching etag ext imgdata :
  etag imgdata ≠ "" →
  serve etag ext (etag imgdata) imgdata
  = Content 304 [("Content-Type", getMimeType ext);
                 ("Cache-Control", "public, max-age=31536000");
                 ("ETag", etag imgdata)] [].
Proof.
  intros Hne. unfold serve.
  rewrite String.eqb_refl, (eqb_empty_false _ Hne). done.
Qed.

Section GetImageFacts.
Variable etag : list byte → string.
Variable rangeOrder : gmap string cacheEntry → list (string * cacheEntry).
Hypothesis rangeOrder_perm : ∀ m, rangeOrder m ≡ₚ map_to_list m.

(** A hit: the answer comes from the cache alone. *)
Lemma getImage_hit pidStr ext ifNoneMatch now db c pid e :
  Atoi pidStr = Some pid →
  data c !! cacheKey pid ext = Some e →
  getImage etag rangeOrder pidStr ext ifNoneMatch now db c
  = Ret (serve etag ext ifNoneMatch (entry_data e),
         (getFromCache (cacheKey pid ext) now c).2).
Proof.
  intros Hpid He. unfold getImage, getFromCache. by rewrite Hpid, He.
Qed.

(** A miss on a post whose mime goes with the extension: the stored bytes
    are served and put in the cache. *)
Lemma getImage_populate pidStr ext ifNoneMatch now db c pid post :
  Atoi pidStr = Some pid →
  data c !! cacheKey pid ext = None →
  getPost db pid = Some post →
  extMatches ext (Mime post) = true →
  ∃ c1, evictLoop rangeOrder (S (size (data c))) (len64 (Imgdata post)) c = Ret c1
        ∧ getImage etag rangeOrder pidStr ext ifNoneMatch now db c
          = Ret (serve etag ext ifNoneMatch (Imgdata post),
                 store (cacheKey pid ext) (Imgdata post) now c1).
Proof.
  intros Hpid Hmiss Hpost Hext.
  destruct (evictLoop_result rangeOrder rangeOrder_perm
              (len64 (Imgdata post)) c) as (c1 & Hrun & _).
  exists c1. split; [done|].
  unfold getImage, getFromCache. rewrite Hpid, Hmiss, Hpost, Hext.
  unfold addToCache, addToCacheFuel. by rewrite Hrun.
Qed.

(** X6.  After a read that had to go to the store, the same read is answered
    from the cache with the same bytes, whatever the store holds by then. *)
Theorem getImage_second_read_from_cache
    pidStr ext ifNoneMatch now db c pid post :
  Atoi pidStr = Some pid →
  data c !! cacheKey pid ext = None →
  getPost db pid = Some post →
  extMatches ext (Mime post) = true →
  ∃ c', getImage etag rangeOrder pidStr ext ifNoneMatch now db c
        = Ret (serve etag ext ifNoneMatch (Imgdata post), c')
        ∧ ∀ db' ifNoneMatch' now',
            ∃ c'', getImage etag rangeOrder pidStr ext ifNoneMatch' now' db' c'
                   = Ret (serve etag ext ifNoneMatch' (Imgdata post), c'').
Proof.
  intros Hpid Hmiss Hpost Hext.
  destruct (getImage_populate pidStr ext ifNoneMatch now db c pid post)
    as (c1 & _ & Hget); [done..|].
  eexists. split; [exact Hget|]. intros db' inm' now'.
  eexists.
  apply (getImage_hit pidStr ext inm' now' db' _ pid
           {| entry_data := Imgdata post; lastUse := now |});
    [done|apply lookup_insert_eq].
Qed.

(** X7.  A read answered with 200 carries the [ETag] of its body, and the same
    read presenting that tag is answered 304 with the same headers and no
    body, from the cache. *)
Theorem getImage_conditional_read
    pidStr ext ifNoneMatch now db c hs body c' :
  getImage etag rangeOrder pidStr ext ifNoneMatch now db c
    = Ret (Content 200 hs body, c') →
  etag body ≠ "" →
  In ("ETag", etag body) hs
  ∧ ∀ db' now',
      ∃ c'', getImage etag rangeOrder pidStr ext (etag body) now' db' c'
             = Ret (Content 304 hs [], c'').
Proof.
  intros Hget Htag. unfold getImage in Hget.
  destruct (Atoi pidStr) as [pid|] eqn:Hpid; [|done].
  unfold getFromCache in Hget.
  destruct (data c !! cacheKey pid ext) as [e|] eqn:He; simpl in Hget.
  - injection Hget as Hserve <-. apply serve_200 in Hserve as [-> ->].
    split; [simpl; tauto|]. intros db' now'. eexists.
    erewrite getImage_hit; [|done|apply lookup_insert_eq]. simpl.
    by rewrite serve_matching.
  - destruct (getPost db pid) as [post|] eqn:Hpost; [|done].
    destruct (extMatches ext (Mime post)) eqn:Hext; [|done].
    destruct (addToCache rangeOrder (cacheKey pid ext) (Imgdata post) now c)
      as [c2| |] eqn:Hadd; [|done..].
    injection Hget as Hserve <-. apply serve_200 in Hserve as [-> ->].
    split; [simpl; tauto|]. intros db' now'.
    unfold addToCache, addToCacheFuel in Hadd.
    destruct (evictLoop _ _ _ _) as [c1| |]; [|done..].
    injection Hadd as <-. eexists.
    erewrite getImage_hit; [|done|apply lookup_insert_eq]. simpl.
    by rewrite serve_matching.
Qed.

End GetImageFacts.

(** ** [strconv.Atoi] reads back what [strconv.Itoa] writes *)

Import Pages.

Lemma digitOf_char (d : N) :
  (d < 10)%N → digitOf (pretty_N_char d) = Some (Z.of_N d).
Proof.
  intros Hd.
  assert (d = 0 ∨ d = 1 ∨ d = 2 ∨ d = 3 ∨ d = 4 ∨ d = 5 ∨ d = 6 ∨ d = 7
          ∨ d = 8 ∨ d = 9)%N as Hcases by lia.
  repeat (destruct Hcases as [->|Hcases]; [reflexivity|]). by subst.
Qed.

(** Reading the digits [pretty_N_go] writes in front of [s] shifts the
    accumulator and adds the number. *)
Lemma parseDigits_go (x : N) :
  ∀ s, ∃ k, 0 ≤ k ∧ ∀ acc,
    parseDigits acc (pretty_N_go x s)
    = parseDigits (acc * 10 ^ k + Z.of_N x) s.
Proof.
  induction (N.lt_wf_0 x) as [x _ IH]. intros s.
  destruct (decide (x = 0%N)) as [->|Hx].
  { exists 0. split; [done|]. intros acc. rewrite pretty_N_go_0. f_equal. lia. }
  rewrite pretty_N_go_step by lia.
  destruct (IH (x `div` 10)%N) with (s := String (pretty_N_char (x `mod` 10)) s)
    as (k & Hk & Hparse).
  { apply N.div_lt; lia. }
  exists (k + 1). split; [lia|]. intros acc. rewrite Hparse. simpl.
  rewrite digitOf_char by (apply N.mod_lt; lia). simpl. f_equal.
  assert (Hsplit : Z.of_N x = 10 * Z.of_N (x `div` 10) + Z.of_N (x `mod` 10)).
  { pose proof (N.div_mod x 10 ltac:(lia)) as Hdm. lia. }
  rewrite Z.pow_add_r, Z.pow_1_r, Hsplit by lia. ring.
Qed.

(** A positive number is written with a digit in front. *)
Lemma pretty_N_go_head (x : N) :
  (0 < x)%N → ∀ s, ∃ d s', (d < 10)%N ∧ pretty_N_go x s = String (pretty_N_char d) s'.
Proof.
  induction (N.lt_wf_0 x) as [x _ IH]. intros Hx s.
  rewrite pretty_N_go_step by done.
  destruct (decide (x `div` 10 = 0)%N) as [->|Hdiv].
  - rewrite pretty_N_go_0. exists (x `mod` 10)%N, s.
    split; [apply N.mod_lt; lia|done].
  - apply IH; [apply N.div_lt; lia|by apply N.neq_0_lt_0].
Qed.

(** [Atoi] on a string that starts with a digit: no sign to strip. *)
Lemma Atoi_unsigned (a : ascii) (s : string) (d : Z) :
  digitOf a = Some d →
  Atoi (String a s)
  = n ← parseDigits 0 (String a s);
    if (- 2 ^ 63 <=? n) && (n <? 2 ^ 63) then Some n else None.
Proof.
  intros Hd. destruct a as [[] [] [] [] [] [] [] []];
    first [discriminate Hd | reflexivity].
Qed.

Ltac range_check :=
  repeat match goal with
         | |- context [Z.leb ?a ?b] => destruct (Z.leb_spec a b)
         | |- context [Z.ltb ?a ?b] => destruct (Z.ltb_spec a b)
         end;
  simpl; first [done | lia].

(** [Atoi] on a minus sign followed by a string that starts with a digit. *)
Lemma Atoi_negative (a : ascii) (s : string) :
  Atoi (String "-" (String a s))
  = n ← parseDigits 0 (String a s);
    if (- 2 ^ 63 <=? - n) && (- n <? 2 ^ 63) then Some (- n) else None.
Proof. reflexivity. Qed.

Lemma Atoi_pretty_N (x : N) :
  (0 < x)%N → Z.of_N x < 2 ^ 63 →
  Atoi (pretty_N_go x "") = Some (Z.of_N x).
Proof.
  intros Hx Hmax.
  destruct (pretty_N_go_head x Hx "") as (d & s' & Hd & Hs).
  destruct (parseDigits_go x "") as (k & _ & Hparse).
  rewrite Hs, (Atoi_unsigned _ _ _ (digitOf_char d Hd)), <-Hs.
  rewrite Hparse. simpl. simpl in Hmax. range_check.
Qed.

Lemma Atoi_pretty (n : Z) :
  - 2 ^ 63 ≤ n < 2 ^ 63 → Atoi (pretty n) = Some n.
Proof.
  intros Hn. destruct n as [|p|p].
  - reflexivity.
  - unfold pretty, pretty_Z, pretty, pretty_positive, pretty, pretty_N.
    rewrite decide_False by done.
    rewrite Atoi_pretty_N by (simpl; lia). done.
  - unfold pretty, pretty_Z, pretty, pretty_positive, pretty, pretty_N.
    rewrite decide_False by done.
    destruct (pretty_N_go_head (N.pos p) ltac:(lia) "") as (d & s' & Hd & Hs).
    destruct (parseDigits_go (N.pos p) "") as (k & _ & Hparse).
    change ("-" +:+ pretty_N_go (N.pos p) "")
      with (String "-" (pretty_N_go (N.pos p) "")).
    rewrite Hs, Atoi_negative, <-Hs, Hparse. simpl.
    simpl in Hn. range_check.
Qed.

(** ** [imageURL] and [getImage] *)

Lemma extMatches_getMimeType ext mime :
  extMatches ext mime = true → getMimeType ext = mime.
Proof.
  intros [[-> ->]|[[-> ->]|[-> ->]]]%extMatches_spec; reflexivity.
Qed.

(** X9.  The link [imageURL] renders for a post of a supported mime names its id
    and the extension of its mime, and [getImage] on that id and extension
    serves the bytes of the post under its mime type when the post is in
    the store and not yet in the cache. *)
Theorem imageURL_is_served
    (etag : list byte → string)
    (rangeOrder : gmap string cacheEntry → list (string * cacheEntry))
    (rangeOrder_perm : ∀ m, rangeOrder m ≡ₚ map_to_list m)
    db p :
  supportedMime (Mime p) →
  getPost db (Post_ID p) = Some p →
  - 2 ^ 63 ≤ Post_ID p < 2 ^ 63 →
  ∃ ext,
    imageURL p = "/image/" +:+ pretty (Post_ID p) +:+ "." +:+ ext
    ∧ getMimeType ext = Mime p
    ∧ ∀ ifNoneMatch now c,
        data c !! cacheKey (Post_ID p) ext = None →
        ∃ c', getImage etag rangeOrder (pretty (Post_ID p)) ext ifNoneMatch now db c
              = Ret (serve etag ext ifNoneMatch (Imgdata p), c').
Proof.
  intros Hmime Hpost Hid.
  assert (Hext : ∃ ext, imageURL p = "/image/" +:+ pretty (Post_ID p) +:+ "." +:+ ext
                        ∧ extMatches ext (Mime p) = true).
  { unfold imageURL.
    destruct Hmime as [Hm|[Hm|Hm]]; rewrite Hm;
      [exists "jpg"|exists "png"|exists "gif"]; done. }
  destruct Hext as (ext & Hurl & Hmatch). exists ext.
  split; [done|]. split; [by apply extMatches_getMimeType|].
  intros inm now c Hmiss.
  destruct (getImage_populate etag rangeOrder rangeOrder_perm
              (pretty (Post_ID p)) ext inm now db c (Post_ID p) p)
    as (c1 & _ & Hget); [by apply Atoi_pretty|done..|].
  eauto.
Qed.

(** ** [postIndex] *)

Lemma mimeOf_supported contentType mime :
  mimeOf contentType = Some mime → supportedMime mime.
Proof.
  unfold mimeOf, supportedMime.
  destruct (Contains contentType "jpeg"); [intros [= <-]; tauto|].
  destruct (Contains contentType "png"); [intros [= <-]; tauto|].
  destruct (Contains contentType "gif"); [intros [= <-]; tauto|done].
Qed.

(** X10.  [postIndex] never touches the users or the comments.  It either leaves
    the store and the cache as they are, or appends one post of the
    session user, with the caption of the form and one of the three
    supported mime types, and empties the cache; and it leaves them as they
    are whenever the user is not logged in, the token is wrong, there is no
    file, the content type is not supported or the file is over the limit. *)
Theorem postIndex_effects `{ImageLib}
    me formToken sessionToken file body now db c :
  let r := postIndex me formToken sessionToken file body now db c in
  users r.1.2 = users db
  ∧ comments r.1.2 = comments db
  ∧ ((r.1.2 = db ∧ r.2 = c)
     ∨ (∃ row, posts r.1.2 = (posts db ++ [row])%list
               ∧ Post_UserID row = User_ID me
               ∧ Body row = body
               ∧ supportedMime (Mime row)
               ∧ r.2 = clearImageCache c))
  ∧ ((isLogin me = false ∨ formToken ≠ sessionToken ∨ file = None
      ∨ (∃ contentType filedata,
           file = Some (contentType, filedata)
           ∧ (mimeOf contentType = None ∨ UploadLimit < len64 filedata))) →
     r.1.2 = db ∧ r.2 = c).
Proof.
  unfold postIndex.
  destruct (isLogin me); simpl; [|by repeat split; auto].
  destruct (String.eqb_spec formToken sessionToken) as [->|Htok]; simpl;
    [|by repeat split; auto].
  destruct file as [[contentType filedata]|]; [|by repeat split; auto].
  destruct (mimeOf contentType) as [mime|] eqn:Hmime; [|by repeat split; auto].
  destruct (Z.ltb_spec UploadLimit (len64 filedata)); [by repeat split; auto|].
  simpl. split; [done|]. split; [done|]. split.
  - right. eexists. split; [reflexivity|]. simpl.
    repeat split; try done. by eapply mimeOf_supported.
  - intros [?|[?|[?|(ct & fd & [= <- <-] & [Hm|Hlen])]]]; try done.
    + congruence.
    + lia.
Qed.

Lemma nextPostID_above db p : p ∈ posts db → Post_ID p < nextPostID db.
Proof.
  unfold nextPostID. induction (posts db) as [|q l IH]; [by intros ?%elem_of_nil|].
  rewrite fmap_cons. cbn [foldr].
  intros [->|Hin]%elem_of_cons; [lia|]. specialize (IH Hin). lia.
Qed.

Lemma getPost_inserted db userID mime imgdata body now :
  ∃ row,
    getPost (insertPost db userID mime imgdata body now).1 (nextPostID db) = Some row
    ∧ Post_ID row = nextPostID db ∧ Imgdata row = imgdata ∧ Mime row = mime.
Proof.
  unfold getPost, insertPost. simpl. rewrite filter_app.
  rewrite (filter_none _ (posts db)).
  - rewrite filter_cons_True by done. simpl. eexists. split; [reflexivity|done].
  - intros p Hp Heq. apply nextPostID_above in Hp. lia.
Qed.

(** X11.  An uploaded image can be read back.  After [postIndex] has stored an
    upload, [getImage] on the id of the redirect and the extension of the
    mime answers 200 with the bytes [postIndex] stored (the output of
    [resizeImage], or the upload itself when that fails), from the store:
    the cache was emptied. *)
Theorem upload_then_read `{ImageLib}
    (etag : list byte → string)
    (rangeOrder : gmap string cacheEntry → list (string * cacheEntry))
    (rangeOrder_perm : ∀ m, rangeOrder m ≡ₚ map_to_list m)
    me formToken contentType mime filedata body now now' db c :
  isLogin me = true →
  mimeOf contentType = Some mime →
  len64 filedata ≤ UploadLimit →
  nextPostID db < 2 ^ 63 →
  ∃ db' c' ext c'',
    postIndex me formToken formToken (Some (contentType, filedata)) body now db c
    = (Redirect ("/posts/" +:+ pretty (nextPostID db)) None, db', c')
    ∧ extMatches ext mime = true
    ∧ getImage etag rangeOrder (pretty (nextPostID db)) ext "" now' db' c'
      = Ret (Content 200 [("Content-Type", mime);
                          ("Cache-Control", "public, max-age=31536000");
                          ("ETag", etag (storedBytesOf filedata mime))]
                     (storedBytesOf filedata mime), c'').
Proof.
  intros Hlogin Hmime Hlen Hmax.
  destruct (getPost_inserted db (User_ID me) mime (storedBytesOf filedata mime)
              body now) as (row & Hrow & Hid & Hdata & Hrmime).
  assert (Hext : ∃ ext, extMatches ext mime = true).
  { destruct (mimeOf_supported _ _ Hmime) as [-> | [-> | ->]];
      [exists "jpg"|exists "png"|exists "gif"]; done. }
  destruct Hext as [ext Hext].
  assert (Hpos : 0 < nextPostID db).
  { unfold nextPostID.
    assert (0 ≤ foldr Z.max 0 (Post_ID <$> posts db)); [|lia].
    induction (posts db); [done|]. rewrite fmap_cons. cbn [foldr]. lia. }
  destruct (getImage_populate etag rangeOrder rangeOrder_perm
              (pretty (nextPostID db)) ext "" now'
              (insertPost db (User_ID me) mime (storedBytesOf filedata mime) body now).1
              (clearImageCache c) (nextPostID db) row)
    as (c1 & _ & Hget).
  { apply Atoi_pretty. lia. }
  { apply lookup_empty. }
  { done. }
  { by rewrite Hrmime. }
  exists (insertPost db (User_ID me) mime (storedBytesOf filedata mime) body now).1,
    (clearImageCache c), ext.
  eexists. split; [|split; [exact Hext|]].
  - unfold postIndex. rewrite Hlogin, String.eqb_refl, Hmime. simpl.
    destruct (Z.ltb_spec UploadLimit (len64 filedata)); [lia|]. reflexivity.
  - rewrite Hget, Hdata. unfold serve. simpl.
    by rewrite (extMatches_getMimeType _ _ Hext).
Qed.

(** ** [makePosts] on a post without author *)



Section MakePostsMore.
Variable rowOrder : list AggRow → list AggRow.
Hypothesis rowOrder_perm : ∀ rows, rowOrder rows ≡ₚ rows.



End MakePostsMore.

(** ** The pages *)

Section PageFacts.
Variable rowOrder : list AggRow → list AggRow.

(** The rows of a listing query are none only when none is selected. *)
Lemma listing_rows_nonempty (sel : list Post) :
  sel ≠ [] →
  listedColumns <$> take postsPerPage (merge_sort newerPostFirst sel) ≠ [].
Proof.
  intros Hne Hnil. apply fmap_nil_inv in Hnil.
  apply (f_equal length) in Hnil.
  rewrite length_take, merge_sort_Permutation in Hnil.
  destruct sel; [done|]. simpl in Hnil. unfold postsPerPage in Hnil. lia.
Qed.

(** X17.  [getPostsID] answers 404 when the id is not a number and when no
    post is stored under it; for the id of a stored post [makePosts] fails
    and the handler returns without writing a response.  It renders no
    post. *)
Theorem getPostsID_outcome pidStr me csrf db :
  getPostsID rowOrder pidStr me csrf db
  = match Atoi pidStr with
    | None => NotFound
    | Some pid =>
        if bool_decide (pid ∈ Post_ID <$> posts db) then NoPage else NotFound
    end.
Proof.
  unfold getPostsID. destruct (Atoi pidStr) as [pid|]; [|done].
  case_bool_decide as Hin.
  - apply list_elem_of_fmap in Hin as (p & -> & Hp).
    destruct (makePosts_fails_nonempty rowOrder db
                (allColumns <$> filter (λ q, Post_ID q = Post_ID p) (posts db))
                csrf true) as [msg ->]; [|done].
    intros Hnil. apply fmap_nil_inv in Hnil.
    assert (Hpf : p ∈ filter (λ q, Post_ID q = Post_ID p) (posts db))
      by (by apply list_elem_of_filter).
    rewrite Hnil in Hpf. by apply elem_of_nil in Hpf.
  - rewrite (filter_none _ (posts db)); [done|].
    intros p Hp Heq. apply Hin. apply list_elem_of_fmap. eauto.
Qed.

(** X18.  [getIndex] renders its page, with an empty listing, only while no
    post is stored; once a post is stored [makePosts] fails and the handler
    returns without writing a response. *)
Theorem getIndex_outcome me csrf db :
  getIndex rowOrder me csrf db
  = match posts db with
    | [] => IndexPage [] me csrf
    | _ :: _ => NoPage
    end.
Proof.
  unfold getIndex. destruct (posts db) as [|p l] eqn:Hposts; [done|].
  destruct (makePosts_fails_nonempty rowOrder db
              (listedColumns <$>
                 take postsPerPage (merge_sort newerPostFirst (p :: l)))
              csrf false) as [msg ->]; [|done].
  by apply listing_rows_nonempty.
Qed.

Variable sameName : string → string → bool.

(** X19.  [getAccountName] renders its page only for a stored user with the
    requested name who is not banned and has no stored post: the page lists
    no post, its post count and its count of commented posts are 0, and
    its comment count is the number of stored comments of the user. *)
Theorem getAccountName_page name me csrf db page user pc cc cdc me' :
  getAccountName rowOrder sameName name me csrf db
    = AccountPage page user pc cc cdc me' →
  me' = me
  ∧ user ∈ users db ∧ sameName (AccountName user) name = true
  ∧ DelFlg user = 0 ∧ User_ID user ≠ 0
  ∧ (∀ p, p ∈ posts db → Post_UserID p ≠ User_ID user)
  ∧ page = [] ∧ pc = 0 ∧ cdc = 0
  ∧ cc = Z.of_nat (length (filter (λ c, Comment_UserID c = User_ID user)
                                  (comments db))).
Proof.
  intros Hpage. unfold getAccountName in Hpage.
  destruct (filter _ (users db)) as [|usr rest] eqn:Hf; [done|].
  assert (Husr : usr ∈ filter (λ u, sameName (AccountName u) name = true
                                    ∧ DelFlg u = 0) (users db))
    by (rewrite Hf; left).
  apply list_elem_of_filter in Husr as [[Hname Hdel] Husr].
  destruct (User_ID usr =? 0) eqn:Hzero; [done|]. apply Z.eqb_neq in Hzero.
  destruct (filter (λ p, Post_UserID p = User_ID usr) (posts db))
    as [|p own] eqn:Hown.
  - injection Hpage as <- <- <- <- <- <-.
    repeat (split; [done|]). split.
    { intros p Hp Heq. by apply (filter_nil_not_elem_of _ _ p Hown). }
    repeat (split; [done|]). split; [|done].
    rewrite (filter_none _ (comments db)); [done|].
    intros c _ Hc. simpl in Hc. by apply elem_of_nil in Hc.
  - destruct (makePosts_fails_nonempty rowOrder db
                (listedColumns <$>
                   take postsPerPage (merge_sort newerPostFirst (p :: own)))
                csrf false) as [msg Hmsg]; [by apply listing_rows_nonempty|].
    by rewrite Hmsg in Hpage.
Qed.

(** X20.  For a name that no user has, or only banned users have,
    [getAccountName] returns without writing a response: it does not answer
    404. *)
Theorem getAccountName_unknown_account name me csrf db :
  (∀ u, u ∈ users db → sameName (AccountName u) name = true → DelFlg u ≠ 0) →
  getAccountName rowOrder sameName name me csrf db = NoPage.
Proof.
  intros Hnone. unfold getAccountName.
  rewrite (filter_none _ (users db)); [done|].
  intros u Hu [Hname Hdel]. by apply (Hnone u).
Qed.

End PageFacts.

(** ** Accounts and moderation *)

Import Accounts.

Lemma setDelFlg_same u : setDelFlg (DelFlg u) u = u.
Proof. by destruct u. Qed.

Lemma DB_ext (a b : DB) :
  users a = users b → posts a = posts b → comments a = comments b → a = b.
Proof. destruct a, b; simpl; congruence. Qed.

Lemma filter_twice {A} (P : A → Prop) `{!∀ x, Decision (P x)} (l : list A) :
  filter P (filter P l) = filter P l.
Proof.
  rewrite list_filter_filter. apply list_filter_iff. tauto.
Qed.

(** An id above the largest one. *)
Lemma max_above (l : list Z) x : x ∈ l → x < 1 + foldr Z.max 0 l.
Proof.
  induction l as [|y l IH]; [by intros ?%elem_of_nil|].
  cbn [foldr]. intros [->|Hin]%elem_of_cons; [lia|]. specialize (IH Hin). lia.
Qed.

Lemma NoDup_snoc_above (l : list Z) : NoDup l → NoDup (l ++ [1 + foldr Z.max 0 l]).
Proof.
  intros Hnd. apply NoDup_app. split; [done|]. split; [|apply NoDup_singleton].
  intros x Hx ->%list_elem_of_singleton. apply max_above in Hx. lia.
Qed.

(** The tables after [dbInitialize]. *)
Lemma dbInitialize_users db :
  users (dbInitialize db) =
  (λ u, setDelFlg (if Z.rem (User_ID u) 50 =? 0 then 1 else 0) u)
    <$> filter (λ u, ¬ 1000 < User_ID u) (users db).
Proof.
  unfold dbInitialize, sqls. simpl. rewrite <-list_fmap_compose.
  apply list_fmap_ext. intros _ u _. simpl.
  by destruct (Z.rem (User_ID u) 50 =? 0).
Qed.

Lemma dbInitialize_posts db :
  posts (dbInitialize db) = filter (λ p, ¬ 10000 < Post_ID p) (posts db).
Proof. done. Qed.

Lemma dbInitialize_comments db :
  comments (dbInitialize db)
  = filter (λ c, ¬ 100000 < Comment_ID c) (comments db).
Proof. done. Qed.

(** [dbInitialize] does not look at the flags it finds. *)
Lemma dbInitialize_flags (f : User → User) (l : list User) :
  (∀ u, ∃ v, f u = setDelFlg v u) →
  (λ u, setDelFlg (if Z.rem (User_ID u) 50 =? 0 then 1 else 0) u)
    <$> filter (λ u, ¬ 1000 < User_ID u) (f <$> l)
  = (λ u, setDelFlg (if Z.rem (User_ID u) 50 =? 0 then 1 else 0) u)
    <$> filter (λ u, ¬ 1000 < User_ID u) l.
Proof.
  intros Hf. induction l as [|u l IH]; [done|].
  rewrite fmap_cons, !filter_cons. destruct (Hf u) as [v ->]. simpl.
  destruct (decide (¬ 1000 < User_ID u)); [|done].
  rewrite !fmap_cons, IH. done.
Qed.

Lemma dbInitialize_same_rows (a b : DB) (f : User → User) :
  (∀ u, ∃ v, f u = setDelFlg v u) →
  users a = f <$> users b → posts a = posts b → comments a = comments b →
  dbInitialize a = dbInitialize b.
Proof.
  intros Hf Hu Hp Hc. apply DB_ext.
  - rewrite !dbInitialize_users, Hu. by apply dbInitialize_flags.
  - by rewrite !dbInitialize_posts, Hp.
  - by rewrite !dbInitialize_comments, Hc.
Qed.

(** X21.  After [dbInitialize] the ids of the users are at most 1000, and a user
    is banned exactly when its id is a multiple of 50; nothing else of a
    user row changes. *)
Theorem dbInitialize_resets db u :
  u ∈ users (dbInitialize db) →
  User_ID u ≤ 1000
  ∧ ((DelFlg u = 1 ∧ (50 | User_ID u)) ∨ (DelFlg u = 0 ∧ ¬ (50 | User_ID u)))
  ∧ ∃ u0, u0 ∈ users db ∧ u = setDelFlg (DelFlg u) u0.
Proof.
  rewrite dbInitialize_users. intros (u0 & -> & Hu0)%list_elem_of_fmap.
  apply list_elem_of_filter in Hu0 as [Hid Hu0]. simpl.
  split; [lia|]. split; [|eauto].
  destruct (Z.rem (User_ID u0) 50 =? 0) eqn:Hrem.
  - left. split; [done|]. apply Z.eqb_eq in Hrem. by apply Z.rem_divide.
  - right. split; [done|]. apply Z.eqb_neq in Hrem.
    intros Hdiv. apply Hrem. by apply Z.rem_divide.
Qed.

(** X22.  Running [dbInitialize] twice is the same as running it once. *)
Theorem dbInitialize_idempotent db :
  dbInitialize (dbInitialize db) = dbInitialize db.
Proof.
  apply DB_ext.
  - rewrite (dbInitialize_users (dbInitialize db)), (dbInitialize_users db).
    rewrite dbInitialize_flags by eauto. by rewrite filter_twice.
  - rewrite (dbInitialize_posts (dbInitialize db)), (dbInitialize_posts db).
    apply filter_twice.
  - rewrite (dbInitialize_comments (dbInitialize db)), (dbInitialize_comments db).
    apply filter_twice.
Qed.

Lemma initial_ids_NoDup {A} (f : A → Z) (P : A → Prop) `{!∀ x, Decision (P x)}
    (l : list A) :
  NoDup (f <$> l) → NoDup (f <$> filter P l).
Proof.
  intros Hnd. eapply NoDup_of_sublist; [apply fmap_sublist, sublist_filter|done].
Qed.

Lemma dbInitialize_primaryKeys db : primaryKeys db → primaryKeys (dbInitialize db).
Proof.
  intros (Hu & Hp & Hc). split; [|split].
  - rewrite dbInitialize_users, <-list_fmap_compose.
    by apply (initial_ids_NoDup User_ID).
  - rewrite dbInitialize_posts. by apply initial_ids_NoDup.
  - rewrite dbInitialize_comments. by apply initial_ids_NoDup.
Qed.

Lemma insertPost_primaryKeys db userID mime imgdata body now :
  primaryKeys db → primaryKeys (insertPost db userID mime imgdata body now).1.
Proof.
  intros (Hu & Hp & Hc). split; [done|]. split; [|done].
  simpl. rewrite fmap_app. simpl. by apply NoDup_snoc_above.
Qed.

Lemma insertComment_primaryKeys db postID userID text now :
  primaryKeys db → primaryKeys (insertComment db postID userID text now).
Proof.
  intros (Hu & Hp & Hc). split; [done|]. split; [done|].
  simpl. rewrite fmap_app. simpl. by apply NoDup_snoc_above.
Qed.

(** The store after [postIndex] and after [postComment]. *)
Lemma postIndex_store `{ImageLib} me ft st file body now db c :
  (postIndex me ft st file body now db c).1.2 = db
  ∨ ∃ mime imgdata,
      (postIndex me ft st file body now db c).1.2
      = (insertPost db (User_ID me) mime imgdata body now).1.
Proof.
  unfold postIndex.
  destruct (negb (isLogin me)); [by left|].
  destruct (negb (String.eqb ft st)); [by left|].
  destruct file as [[contentType filedata]|]; [|by left].
  destruct (mimeOf contentType) as [mime|]; [|by left].
  destruct (UploadLimit <? len64 filedata); [by left|].
  right. by exists mime, (storedBytesOf filedata mime).
Qed.

Lemma postComment_store me ft st pidStr text now db :
  (postComment me ft st pidStr text now db).2 = db
  ∨ ∃ pid,
      isLogin me = true ∧ ft = st ∧ Atoi pidStr = Some pid
      ∧ (postComment me ft st pidStr text now db).2
        = insertComment db pid (User_ID me) text now.
Proof.
  unfold postComment.
  destruct (isLogin me); [|by left]. simpl.
  destruct (String.eqb ft st) eqn:Htok; [|by left]. simpl.
  apply String.eqb_eq in Htok.
  destruct (Atoi pidStr) as [pid|]; [|by left].
  right. by exists pid.
Qed.

Section Moderation.
Variable idMatches : string → Z → bool.

(** The store after the [UPDATE]s of [postAdminBanned]. *)
Lemma banned_users db uids :
  users (foldl (banUser idMatches) db uids)
  = (λ u, if existsb (λ uid, idMatches uid (User_ID u)) uids
          then setDelFlg 1 u else u) <$> users db
  ∧ posts (foldl (banUser idMatches) db uids) = posts db
  ∧ comments (foldl (banUser idMatches) db uids) = comments db.
Proof.
  revert db. induction uids as [|uid uids IH]; intros db.
  - simpl. split; [|done]. by rewrite list_fmap_id.
  - cbn [foldl]. destruct (IH (banUser idMatches db uid)) as (Hu & Hp & Hc).
    rewrite Hu, Hp, Hc. split; [|done].
    simpl. rewrite <-list_fmap_compose. apply list_fmap_ext. intros _ u _.
    simpl. destruct (idMatches uid (User_ID u)); simpl; [|done].
    by destruct (existsb _ uids).
Qed.

Lemma ban_changes_flags uids u :
  ∃ v, (if existsb (λ uid, idMatches uid (User_ID u)) uids
        then setDelFlg 1 u else u) = setDelFlg v u.
Proof.
  destruct (existsb _ uids); [by exists 1|].
  exists (DelFlg u). by rewrite setDelFlg_same.
Qed.

Lemma postAdminBanned_store me ft st uids db :
  (postAdminBanned idMatches me ft st uids db).2
  = if isLogin me && negb (Authority me =? 0) && String.eqb ft st
    then foldl (banUser idMatches) db uids else db.
Proof.
  unfold postAdminBanned.
  destruct (isLogin me); [|done]. simpl.
  destruct (Authority me =? 0); [done|]. simpl.
  by destruct (String.eqb ft st).
Qed.

Lemma postAdminBanned_accepted me ft st uids db :
  isLogin me = true → Authority me ≠ 0 → ft = st →
  (postAdminBanned idMatches me ft st uids db).2
  = foldl (banUser idMatches) db uids.
Proof.
  intros Hlogin Hadmin ->. rewrite postAdminBanned_store, Hlogin.
  apply Z.eqb_neq in Hadmin. rewrite Hadmin. simpl.
  by rewrite String.eqb_refl.
Qed.

Lemma postAdminBanned_rows me ft st uids db :
  ∃ f : User → User,
    (∀ u, ∃ v, f u = setDelFlg v u)
    ∧ users (postAdminBanned idMatches me ft st uids db).2 = f <$> users db
    ∧ posts (postAdminBanned idMatches me ft st uids db).2 = posts db
    ∧ comments (postAdminBanned idMatches me ft st uids db).2 = comments db.
Proof.
  rewrite postAdminBanned_store.
  destruct (isLogin me && negb (Authority me =? 0) && String.eqb ft st).
  - destruct (banned_users db uids) as (Hu & Hp & Hc).
    eexists. split; [apply (ban_changes_flags uids)|]. by rewrite Hu, Hp, Hc.
  - exists (λ u, u). split; [|by rewrite list_fmap_id].
    intros u. exists (DelFlg u). by rewrite setDelFlg_same.
Qed.

Lemma postAdminBanned_primaryKeys me ft st uids db :
  primaryKeys db → primaryKeys (postAdminBanned idMatches me ft st uids db).2.
Proof.
  intros (Hu & Hp & Hc).
  destruct (postAdminBanned_rows me ft st uids db) as (f & Hf & Hu' & Hp' & Hc').
  unfold primaryKeys. rewrite Hu', Hp', Hc'. split; [|done].
  rewrite <-list_fmap_compose.
  replace (User_ID ∘ f <$> users db) with (User_ID <$> users db); [done|].
  apply list_fmap_ext. intros _ u _. simpl. by destruct (Hf u) as [v ->].
Qed.

(** A user an accepted [postAdminBanned] names is banned afterwards. *)
Lemma ban_flag me ft st uids db uid u :
  isLogin me = true → Authority me ≠ 0 → ft = st →
  uid ∈ uids →
  u ∈ users (postAdminBanned idMatches me ft st uids db).2 →
  idMatches uid (User_ID u) = true →
  DelFlg u = 1.
Proof.
  intros Hlogin Hadmin Htok Huid Hu Hmatch.
  rewrite postAdminBanned_accepted in Hu by done.
  destruct (banned_users db uids) as (Hus & _). rewrite Hus in Hu.
  apply list_elem_of_fmap in Hu as (u0 & -> & _).
  assert (Hid : User_ID (if existsb (λ uid, idMatches uid (User_ID u0)) uids
                         then setDelFlg 1 u0 else u0) = User_ID u0)
    by (by destruct (existsb _ uids)).
  rewrite Hid in Hmatch.
  assert (Hex : existsb (λ uid, idMatches uid (User_ID u0)) uids = true).
  { apply existsb_exists. exists uid. split; [by apply list_elem_of_In|done]. }
  by rewrite Hex.
Qed.

(** X23.  [postAdminBanned] changes nothing but the flag of users: a user gets the
    flag 1 exactly when the request is that of an administrator with the
    token of the session and names the user, and every other row stays as it
    is. *)
Theorem postAdminBanned_effect me ft st uids db :
  posts (postAdminBanned idMatches me ft st uids db).2 = posts db
  ∧ comments (postAdminBanned idMatches me ft st uids db).2 = comments db
  ∧ Forall2
      (λ u u',
         ((isLogin me = true ∧ Authority me ≠ 0 ∧ ft = st
           ∧ ∃ uid, uid ∈ uids ∧ idMatches uid (User_ID u) = true)
          ∧ u' = setDelFlg 1 u)
         ∨ (¬ (isLogin me = true ∧ Authority me ≠ 0 ∧ ft = st
               ∧ ∃ uid, uid ∈ uids ∧ idMatches uid (User_ID u) = true)
            ∧ u' = u))
      (users db) (users (postAdminBanned idMatches me ft st uids db).2).
Proof.
  rewrite postAdminBanned_store.
  destruct (isLogin me) eqn:Hlogin; simpl.
  2:{ split; [done|]. split; [done|].
      apply Forall_Forall2_diag, Forall_forall. intros u _. right.
      split; [|done]. by intros (? & _). }
  destruct (Authority me =? 0) eqn:Hadmin; simpl.
  { split; [done|]. split; [done|]. apply Z.eqb_eq in Hadmin.
    apply Forall_Forall2_diag, Forall_forall. intros u _. right.
    split; [|done]. by intros (_ & ? & _). }
  destruct (String.eqb ft st) eqn:Htok.
  2:{ split; [done|]. split; [done|]. apply String.eqb_neq in Htok.
      apply Forall_Forall2_diag, Forall_forall. intros u _. right.
      split; [|done]. by intros (_ & _ & ? & _). }
  apply Z.eqb_neq in Hadmin. apply String.eqb_eq in Htok.
  destruct (banned_users db uids) as (Hu & Hp & Hc).
  rewrite Hu, Hp, Hc. split; [done|]. split; [done|].
  apply Forall2_fmap_r, Forall_Forall2_diag, Forall_forall. intros u _.
  unfold compose. cbv beta.
  destruct (existsb (λ uid, idMatches uid (User_ID u)) uids) eqn:Hex.
  - left. split; [|done]. repeat (split; [done|]).
    apply existsb_exists in Hex as (uid & Hin & Hmatch).
    exists uid. split; [by apply list_elem_of_In|done].
  - right. split; [|done]. intros (_ & _ & _ & uid & Hin & Hmatch).
    assert (existsb (λ uid, idMatches uid (User_ID u)) uids = true); [|congruence].
    apply existsb_exists. exists uid. split; [by apply list_elem_of_In|done].
Qed.

(** X24.  The four writers keep the ids of each table distinct. *)
Theorem writes_keep_primaryKeys `{ImageLib} me ft st file body pidStr text uids
    now db c :
  primaryKeys db →
  primaryKeys (dbInitialize db)
  ∧ primaryKeys (postIndex me ft st file body now db c).1.2
  ∧ primaryKeys (postComment me ft st pidStr text now db).2
  ∧ primaryKeys (postAdminBanned idMatches me ft st uids db).2.
Proof.
  intros Hpk. split; [by apply dbInitialize_primaryKeys|]. split; [|split].
  - destruct (postIndex_store me ft st file body now db c)
      as [->|(mime & imgdata & ->)]; [done|].
    by apply insertPost_primaryKeys.
  - destruct (postComment_store me ft st pidStr text now db)
      as [->|(pid & _ & _ & _ & ->)]; [done|].
    by apply insertComment_primaryKeys.
  - by apply postAdminBanned_primaryKeys.
Qed.

(** X25.  Once the store holds the initial rows up to the last id that
    [dbInitialize] keeps, initialising after an upload, after a comment or
    after a ban gives the store that initialising before it gives. *)
Theorem dbInitialize_forgets_writes `{ImageLib} me ft st file body pidStr text
    uids now db c :
  (∃ p, p ∈ posts db ∧ 10000 ≤ Post_ID p) →
  (∃ k, k ∈ comments db ∧ 100000 ≤ Comment_ID k) →
  dbInitialize (postIndex me ft st file body now db c).1.2 = dbInitialize db
  ∧ dbInitialize (postComment me ft st pidStr text now db).2 = dbInitialize db
  ∧ dbInitialize (postAdminBanned idMatches me ft st uids db).2
    = dbInitialize db.
Proof.
  intros (p & Hp & Hpid) (k & Hk & Hkid). split; [|split].
  - destruct (postIndex_store me ft st file body now db c)
      as [->|(mime & imgdata & ->)]; [done|].
    apply DB_ext; [by rewrite !dbInitialize_users|..|done].
    rewrite !dbInitialize_posts. simpl. rewrite filter_app.
    rewrite (filter_none _ [_]); [by rewrite app_nil_r|].
    intros q ->%list_elem_of_singleton. simpl.
    pose proof (nextPostID_above db p Hp). lia.
  - destruct (postComment_store me ft st pidStr text now db)
      as [->|(pid & _ & _ & _ & ->)]; [done|].
    apply DB_ext; [by rewrite !dbInitialize_users|done|].
    rewrite !dbInitialize_comments. simpl. rewrite filter_app.
    rewrite (filter_none _ [_]); [by rewrite app_nil_r|].
    intros q ->%list_elem_of_singleton. simpl.
    assert (Comment_ID k < 1 + foldr Z.max 0 (Comment_ID <$> comments db)).
    { apply max_above, list_elem_of_fmap. eauto. }
    lia.
  - destruct (postAdminBanned_rows me ft st uids db) as (f & Hf & Hu & Hp' & Hc).
    by apply (dbInitialize_same_rows _ _ f).
Qed.

Section Login.
Variable digest : string → string.
Variable sameName : string → string → bool.

Lemma tryLogin_user db name pw u :
  tryLogin digest sameName db name pw = Some u →
  u ∈ users db ∧ DelFlg u = 0 ∧ sameName (AccountName u) name = true
  ∧ Passhash u = calculatePasshash digest (AccountName u) pw.
Proof.
  unfold tryLogin. intros Hlogin.
  destruct (filter _ (users db)) as [|usr rest] eqn:Hf; [done|].
  assert (Husr : usr ∈ filter (λ u, sameName (AccountName u) name = true
                                    ∧ DelFlg u = 0) (users db))
    by (rewrite Hf; left).
  apply list_elem_of_filter in Husr as [[Hname Hdel] Husr].
  destruct (String.eqb _ _) eqn:Hhash; [|done].
  injection Hlogin as <-. apply String.eqb_eq in Hhash. done.
Qed.

(** X26.  [tryLogin] returns only a stored user with the requested name who is not
    banned and whose stored hash is that of the password. *)
Theorem tryLogin_sound db name pw u :
  tryLogin digest sameName db name pw = Some u →
  u ∈ users db ∧ DelFlg u = 0 ∧ sameName (AccountName u) name = true
  ∧ Passhash u = calculatePasshash digest (AccountName u) pw.
Proof. apply tryLogin_user. Qed.

(** X27.  After an accepted [postAdminBanned], [tryLogin] returns none of the
    users the request named, whatever the name and the password. *)
Theorem banned_cannot_login me ft st uids db uid name pw u :
  isLogin me = true → Authority me ≠ 0 → ft = st →
  uid ∈ uids →
  tryLogin digest sameName (postAdminBanned idMatches me ft st uids db).2 name pw
    = Some u →
  idMatches uid (User_ID u) = false.
Proof.
  intros Hlogin Hadmin Htok Huid Htry.
  apply tryLogin_user in Htry as (Hu & Hdel & _).
  destruct (idMatches uid (User_ID u)) eqn:Hmatch; [|done].
  pose proof (ban_flag me ft st uids db uid u Hlogin Hadmin Htok Huid Hu Hmatch).
  lia.
Qed.

End Login.

(** X28.  After an accepted [postAdminBanned], the page of [getAdminBanned] lists
    none of the users the request named. *)
Theorem banned_leaves_ban_list me ft st uids db uid me2 csrf us me3 token u :
  isLogin me = true → Authority me ≠ 0 → ft = st →
  uid ∈ uids →
  getAdminBanned me2 csrf (postAdminBanned idMatches me ft st uids db).2
    = BannedPage us me3 token →
  u ∈ us →
  idMatches uid (User_ID u) = false ∧ Authority u = 0.
Proof.
  intros Hlogin Hadmin Htok Huid Hpage Hu. unfold getAdminBanned in Hpage.
  destruct (negb (isLogin me2)); [done|].
  destruct (Authority me2 =? 0); [done|].
  injection Hpage as <- _ _. rewrite merge_sort_Permutation in Hu.
  apply list_elem_of_filter in Hu as [[Hauth Hdel] Hu]. split; [|done].
  destruct (idMatches uid (User_ID u)) eqn:Hmatch; [|done].
  pose proof (ban_flag me ft st uids db uid u Hlogin Hadmin Htok Huid Hu Hmatch).
  lia.
Qed.

End Moderation.

(** ** The further properties on the scenarios *)

Import Cases.

Lemma db2_primaryKeys : primaryKeys db2.
Proof. repeat split; compute_done. Qed.

Lemma accounted_cacheAB : accounted cacheAB.
Proof. split; vm_compute; reflexivity. Qed.

Lemma addToCache_getFromCache_witness :
  ∃ c', addToCache map_to_list "C" (blob 40) 3 cacheAB = Ret c'
        ∧ (getFromCache "C" 9 c').1 = (blob 40, true).
Proof.
  exact (addToCache_getFromCache map_to_list (λ m, reflexivity _)
           "C" (blob 40) 3 9 cacheAB).
Defined.

Lemma addToCache_touches_only_key_witness :
  ∃ c', addToCache map_to_list "C" (blob 40) 3 cacheAB = Ret c'
        ∧ maxSize c' = maxSize cacheAB
        ∧ data c' !! "C" = Some {| entry_data := blob 40; lastUse := 3 |}
        ∧ ∀ k e, k ≠ "C" → data c' !! k = Some e → data cacheAB !! k = Some e.
Proof.
  exact (addToCache_touches_only_key map_to_list (λ m, reflexivity _)
           "C" (blob 40) 3 cacheAB).
Defined.

Lemma addToCache_within_budget_keeps_all_witness :
  ∃ c', addToCache map_to_list "C" (blob 10) 3 cacheAB = Ret c'
        ∧ ∀ k, k ≠ "C" → data c' !! k = data cacheAB !! k.
Proof.
  apply (addToCache_within_budget_keeps_all map_to_list "C" (blob 10) 3 cacheAB).
  - vm_compute. discriminate.
  - split; [vm_compute; discriminate|vm_compute; reflexivity].
Defined.

Lemma addToCache_fresh_keeps_accounting_witness :
  ∃ c', addToCache map_to_list "C" (blob 40) 3 cacheAB = Ret c'
        ∧ accounted c'
        ∧ (storedBytes (data c') ≤ maxSize c'
           ∨ data c' = {[ "C" := {| entry_data := blob 40; lastUse := 3 |} ]}).
Proof.
  apply (addToCache_fresh_keeps_accounting map_to_list (λ m, reflexivity _)
           "C" (blob 40) 3 cacheAB).
  - exact accounted_cacheAB.
  - discriminate.
  - reflexivity.
  - vm_compute. reflexivity.
Defined.

Lemma getImage_second_read_from_cache_witness :
  ∃ c', getImage (λ _, "etag") map_to_list "42" "png" "" 5 db42 imageCache0
        = Ret (serve (λ _, "etag") "png" "" (Imgdata post42), c')
        ∧ ∀ db' ifNoneMatch' now',
            ∃ c'', getImage (λ _, "etag") map_to_list "42" "png" ifNoneMatch'
                            now' db' c'
                   = Ret (serve (λ _, "etag") "png" ifNoneMatch'
                                (Imgdata post42), c'').
Proof.
  apply (getImage_second_read_from_cache (λ _, "etag") map_to_list
           (λ m, reflexivity _) "42" "png" "" 5 db42 imageCache0 42 post42).
  - reflexivity.
  - reflexivity.
  - reflexivity.
  - reflexivity.
Defined.

Lemma getImage_conditional_read_witness :
  In ("ETag", "etag")
     [("Content-Type", "image/jpeg");
      ("Cache-Control", "public, max-age=31536000"); ("ETag", "etag")]
  ∧ ∀ db' now',
      ∃ c'', getImage (λ _, "etag") map_to_list "1" "jpg" "etag" now' db'
                      (getFromCache "1.jpg" 5 cacheOne).2
             = Ret (Content 304
                      [("Content-Type", "image/jpeg");
                       ("Cache-Control", "public, max-age=31536000");
                       ("ETag", "etag")] [], c'').
Proof.
  apply (getImage_conditional_read (λ _, "etag") map_to_list
           "1" "jpg" "" 5 db42 cacheOne _ (blob 40)).
  - vm_compute. reflexivity.
  - discriminate.
Defined.

Lemma imageURL_is_served_witness :
  ∃ ext,
    imageURL post42 = "/image/" +:+ pretty (Post_ID post42) +:+ "." +:+ ext
    ∧ getMimeType ext = Mime post42
    ∧ ∀ ifNoneMatch now c,
        data c !! cacheKey (Post_ID post42) ext = None →
        ∃ c', getImage (λ _, "etag") map_to_list (pretty (Post_ID post42)) ext
                       ifNoneMatch now db42 c
              = Ret (serve (λ _, "etag") ext ifNoneMatch (Imgdata post42), c').
Proof.
  apply (imageURL_is_served (λ _, "etag") map_to_list (λ m, reflexivity _)
           db42 post42).
  - right. left. reflexivity.
  - reflexivity.
  - split; [vm_compute; discriminate|vm_compute; reflexivity].
Defined.

Lemma upload_then_read_witness :
  ∃ db' c' ext c'',
    @postIndex headerLib alice "tok" "tok" (Some ("image/png", blob 3)) "hello"
               300 db42 cacheAB
    = (Redirect ("/posts/" +:+ pretty (nextPostID db42)) None, db', c')
    ∧ extMatches ext "image/png" = true
    ∧ getImage (λ _, "etag") map_to_list (pretty (nextPostID db42)) ext "" 301
               db' c'
      = Ret (Content 200
               [("Content-Type", "image/png");
                ("Cache-Control", "public, max-age=31536000");
                ("ETag", "etag")]
               (@storedBytesOf headerLib (blob 3) "image/png"), c'').
Proof.
  apply (@upload_then_read headerLib (λ _, "etag") map_to_list
           (λ m, reflexivity _) alice "tok" "image/png" "image/png" (blob 3)
           "hello" 300 301 db42 cacheAB).
  - reflexivity.
  - reflexivity.
  - vm_compute. discriminate.
  - vm_compute. reflexivity.
Defined.


Lemma getAccountName_unknown_account_witness :
  getAccountName reverse String.eqb "bob" alice "tok" db1 = NoPage.
Proof.
  apply (getAccountName_unknown_account reverse String.eqb "bob" alice "tok" db1).
  intros u Hu. unfold db1 in Hu. simpl in Hu.
  repeat (apply elem_of_cons in Hu as [->|Hu]);
    [vm_compute; discriminate..|by apply elem_of_nil in Hu].
Defined.

Lemma dbInitialize_resets_witness :
  User_ID (setDelFlg 0 bob) ≤ 1000
  ∧ ((DelFlg (setDelFlg 0 bob) = 1 ∧ (50 | User_ID (setDelFlg 0 bob)))
     ∨ (DelFlg (setDelFlg 0 bob) = 0 ∧ ¬ (50 | User_ID (setDelFlg 0 bob))))
  ∧ ∃ u0, u0 ∈ users db2
          ∧ setDelFlg 0 bob = setDelFlg (DelFlg (setDelFlg 0 bob)) u0.
Proof.
  apply (dbInitialize_resets db2 (setDelFlg 0 bob)).
  vm_compute. right. left.
Defined.

Lemma writes_keep_primaryKeys_witness :
  primaryKeys (dbInitialize db2)
  ∧ primaryKeys (@postIndex headerLib alice "tok" "tok"
                   (Some ("image/png", blob 3)) "hello" 300 db2 cacheAB).1.2
  ∧ primaryKeys (postComment alice "tok" "tok" "1" "hello" 300 db2).2
  ∧ primaryKeys (postAdminBanned decimalId carol "tok" "tok" ["1"] db2).2.
Proof.
  apply (@writes_keep_primaryKeys decimalId headerLib alice "tok" "tok"
           (Some ("image/png", blob 3)) "hello" "1" "hello" ["1"] 300 db2
           cacheAB).
  exact db2_primaryKeys.
Defined.

Lemma dbInitialize_forgets_writes_witness :
  dbInitialize (@postIndex headerLib alice "tok" "tok"
                  (Some ("image/png", blob 3)) "hello" 300 dbSeeded cacheAB).1.2
  = dbInitialize dbSeeded
  ∧ dbInitialize (postComment alice "tok" "tok" "10000" "hello" 300 dbSeeded).2
    = dbInitialize dbSeeded
  ∧ dbInitialize (postAdminBanned decimalId carol "tok" "tok" ["1"] dbSeeded).2
    = dbInitialize dbSeeded.
Proof.
  apply (@dbInitialize_forgets_writes decimalId headerLib alice "tok" "tok"
           (Some ("image/png", blob 3)) "hello" "10000" "hello" ["1"] 300
           dbSeeded cacheAB).
  - exists (row 10000 1 100). split; [vm_compute; left|vm_compute; discriminate].
  - exists (cmt 100000 10000 1 200).
    split; [vm_compute; left|vm_compute; discriminate].
Defined.

Lemma tryLogin_sound_witness :
  dave ∈ users db2 ∧ DelFlg dave = 0
  ∧ String.eqb (AccountName dave) "dave" = true
  ∧ Passhash dave = calculatePasshash (λ s, s) (AccountName dave) "secret".
Proof.
  apply (tryLogin_sound (λ s, s) String.eqb db2 "dave" "secret" dave).
  vm_compute. reflexivity.
Defined.

Lemma banned_cannot_login_witness : decimalId "1" (User_ID dave) = false.
Proof.
  apply (banned_cannot_login decimalId (λ s, s) String.eqb
           carol "tok" "tok" ["1"] db2 "1" "dave" "secret" dave).
  - reflexivity.
  - vm_compute. discriminate.
  - reflexivity.
  - left.
  - vm_compute. reflexivity.
Defined.

Lemma banned_leaves_ban_list_witness :
  decimalId "1" (User_ID dave) = false ∧ Authority dave = 0.
Proof.
  apply (banned_leaves_ban_list decimalId carol "tok" "tok" ["1"] db2 "1"
           carol "tok" [dave] carol "tok" dave).
  - reflexivity.
  - vm_compute. discriminate.
  - reflexivity.
  - left.
  - vm_compute. reflexivity.
  - left.
Defined.

Lemma getAccountName_page_witness :
  alice = alice
  ∧ eve ∈ users dbReaders ∧ String.eqb (AccountName eve) "eve" = true
  ∧ DelFlg eve = 0 ∧ User_ID eve ≠ 0
  ∧ (∀ p, p ∈ posts dbReaders → Post_UserID p ≠ User_ID eve)
  ∧ @nil Post = [] ∧ 0 = 0 ∧ 0 = 0
  ∧ 2 = Z.of_nat (length (filter (λ c, Comment_UserID c = User_ID eve)
                                 (comments dbReaders))).
Proof.
  apply (getAccountName_page reverse String.eqb "eve" alice "tok" dbReaders
           [] eve 0 2 0 alice).
  vm_compute. reflexivity.
Defined.
